(** * Elarus translation gateway: a shallow embedding of [main.js]

    The development follows the source file top to bottom: JavaScript
    strings and JSON values, the configuration constants, [validateInput],
    [getSourceLanguage], the effects of the server (Redis, [fetch], [sleep],
    the console, the clock), [callGroqApiWithBackoff], [processTranslation],
    the error middleware and the three route handlers.  The theorems about
    them come after the definitions. *)

From Stdlib Require Import ZArith NArith List String Ascii Bool Lia.
From Stdlib Require Import DecimalString DecimalN.
From stdpp Require Import base decidable option list gmap.

Set Warnings "-register-all".

Local Open Scope N_scope.
Local Open Scope list_scope.

(** ** JavaScript strings

    A JavaScript string is a sequence of UTF-16 code units; [length] counts
    code units, and so does the limit of [validateInput]. *)

Module JsString.

Abbreviation jsstring := (list N).

(** An ASCII literal of the source as a sequence of code units. *)
Definition js (s : string) : jsstring :=
  List.map N_of_ascii (list_ascii_of_string s).

(** The code unit of the double quote, which occurs in engine messages. *)
Definition dquote : N := 34.

(** [WhiteSpace] and [LineTerminator] of ECMAScript: what [trim] removes
    and what the class [\s] of a regular expression matches. *)
Definition is_ws (c : N) : bool :=
  ((9 <=? c) && (c <=? 13))
  || (c =? 32) || (c =? 160) || (c =? 5760)
  || ((8192 <=? c) && (c <=? 8202))
  || (c =? 8232) || (c =? 8233) || (c =? 8239) || (c =? 8287)
  || (c =? 12288) || (c =? 65279).

Fixpoint trimStart (s : jsstring) : jsstring :=
  match s with
  | c :: s' => if is_ws c then trimStart s' else s
  | [] => []
  end.

Definition trimEnd (s : jsstring) : jsstring := rev (trimStart (rev s)).

(** [String.prototype.trim] *)
Definition trim (s : jsstring) : jsstring := trimEnd (trimStart s).

Definition is_upper (c : N) : bool := (65 <=? c) && (c <=? 90).
Definition is_lower (c : N) : bool := (97 <=? c) && (c <=? 122).
Definition is_digit (c : N) : bool := (48 <=? c) && (c <=? 57).

(** [String.prototype.toUpperCase] on the codes the language detector
    produces (ASCII letters); other code units are left as they are. *)
Definition toUpperCase (s : jsstring) : jsstring :=
  List.map (fun c => if is_lower c then c - 32 else c) s.

Fixpoint startsWith (p s : jsstring) : bool :=
  match p, s with
  | [], _ => true
  | a :: p', b :: s' => (a =? b) && startsWith p' s'
  | _ :: _, [] => false
  end.

(** [String.prototype.includes] *)
Fixpoint includes (needle s : jsstring) : bool :=
  startsWith needle s ||
  match s with
  | [] => false
  | _ :: s' => includes needle s'
  end.

(** Template-literal rendering of a non-negative integer. *)
Definition decimal (n : N) : jsstring :=
  js (NilZero.string_of_uint (N.to_uint n)).

(** The digits at the head of a string and their value ([parseInt] of a
    string of decimal digits). *)
Fixpoint leading_digits (s : jsstring) : jsstring :=
  match s with
  | c :: s' => if is_digit c then c :: leading_digits s' else []
  | [] => []
  end.

Definition parseInt_digits (ds : jsstring) : N :=
  fold_left (fun acc c => 10 * acc + (c - 48)) ds 0.

End JsString.
Export JsString.

(** ** JSON values

    What [JSON.parse] and [express.json()] hand to the program.  A number is
    kept as an integer: the program only tests numbers for being zero
    (truthiness) and for being positive ([length > 0]).  An object lists
    its own properties, each name once. *)

Inductive JsVal : Type :=
| JUndefined
| JNull
| JBool (b : bool)
| JNum (n : Z)
| JStr (s : jsstring)
| JArr (items : list JsVal)
| JObj (props : list (jsstring * JsVal)).

(** [ToBoolean]: what [!v], [v || w] and [if (v)] look at. *)
Definition truthy (v : JsVal) : bool :=
  match v with
  | JUndefined | JNull => false
  | JBool b => b
  | JNum n => negb (n =? 0)%Z
  | JStr s => match s with [] => false | _ => true end
  | JArr _ | JObj _ => true
  end.

(** [a || b] *)
Definition js_or (a b : JsVal) : JsVal := if truthy a then a else b.

Fixpoint own_prop (k : jsstring) (props : list (jsstring * JsVal)) : JsVal :=
  match props with
  | [] => JUndefined
  | (k', v) :: rest => if bool_decide (k' = k) then v else own_prop k rest
  end.

(** [v.name] for an identifier [name]: [None] stands for the [TypeError]
    raised when [v] is [undefined] or [null].  Arrays and strings answer
    [length]; the other names the program reads ([text], [target_lang],
    [choices], [message], [content], [source_language], [translated_text])
    are defined on neither. *)
Definition get_prop (v : JsVal) (k : jsstring) : option JsVal :=
  match v with
  | JUndefined | JNull => None
  | JObj props => Some (own_prop k props)
  | JArr items =>
      Some (if bool_decide (k = js "length") then JNum (Z.of_nat (length items))
            else JUndefined)
  | JStr s =>
      Some (if bool_decide (k = js "length") then JNum (Z.of_nat (length s))
            else JUndefined)
  | JBool _ | JNum _ => Some JUndefined
  end.

(** [v[0]] *)
Definition get_first (v : JsVal) : option JsVal :=
  match v with
  | JUndefined | JNull => None
  | JObj props => Some (own_prop (js "0") props)
  | JArr items => Some (match items with x :: _ => x | [] => JUndefined end)
  | JStr s => Some (match s with c :: _ => JStr [c] | [] => JUndefined end)
  | JBool _ | JNum _ => Some JUndefined
  end.

(** ** Errors *)

Inductive JsError : Type :=
| Error (message : jsstring)
| TypeError (message : jsstring)
| TranslationError (message : jsstring) (statusCode : N)
                   (details : option jsstring).

Definition error_message (e : JsError) : jsstring :=
  match e with
  | Error m | TypeError m | TranslationError m _ _ => m
  end.

(** [new TranslationError(message)] with the defaults of the constructor. *)
Definition TranslationError_default (message : jsstring) : JsError :=
  TranslationError message 400 None.

(** ** Configuration *)

Definition GROQ_MODEL : jsstring := js "openai/gpt-oss-120b".
Definition API_URL : jsstring :=
  js "https://api.groq.com/openai/v1/chat/completions".
Definition CACHE_EXPIRY_SECONDS : N := 60 * 60 * 24 * 7.
Definition MAX_RETRIES : N := 5.
Definition BASE_DELAY : N := 1000.
Definition MAX_TEXT_LENGTH : N := 2000.

(** ** validateInput *)

(** [(v || '').trim()]: a truthy value that is not a string has no [trim]. *)
Definition or_empty_trim (expr : jsstring) (v : JsVal) : JsError + jsstring :=
  match js_or v (JStr []) with
  | JStr s => inr (trim s)
  | _ => inl (TypeError (js "(" ++ expr ++ js " || " ++ [dquote; dquote]
                         ++ js ").trim is not a function"))
  end.

(** [/^[A-Za-z\s\-]+$/.test(s)] *)
Definition lang_char (c : N) : bool :=
  is_upper c || is_lower c || is_ws c || (c =? 45).

Definition lang_format (s : jsstring) : bool :=
  match s with
  | [] => false
  | _ => forallb lang_char s
  end.

(** The four errors of lines 74-96, under the names the specification
    gives them. *)
Definition TextTooLong (observed : nat) : JsError :=
  TranslationError
    (js "Text too long. Maximum " ++ decimal MAX_TEXT_LENGTH
     ++ js " characters.")
    400
    (Some (js "Text length: " ++ decimal (N.of_nat observed)
           ++ js " characters")).

Definition EmptyText : JsError :=
  TranslationError_default (js "Text cannot be empty").

Definition EmptyTargetLang : JsError :=
  TranslationError_default (js "Target language cannot be empty").

Definition InvalidTargetLangFormat : JsError :=
  TranslationError (js "Invalid target language format") 400
                   (Some (js "Use only letters, spaces, and hyphens")).

(** [data.name] where [data] is known to be truthy, so that the read
    cannot throw. *)
Definition request_field (data : JsVal) (name : string) : JsVal :=
  default JUndefined (get_prop data (js name)).

Definition validateInput (data : JsVal) : JsError + (jsstring * jsstring) :=
  if negb (truthy data) then
    inl (TranslationError_default (js "Request must be JSON"))
  else
    match or_empty_trim (js "data.text") (request_field data "text") with
    | inl e => inl e
    | inr text =>
    match or_empty_trim (js "data.target_lang")
                        (request_field data "target_lang") with
    | inl e => inl e
    | inr targetLang =>
      if MAX_TEXT_LENGTH <? N.of_nat (length text) then
        inl (TextTooLong (length text))
      else if negb (truthy (JStr text)) then inl EmptyText
      else if negb (truthy (JStr targetLang)) then inl EmptyTargetLang
      else if negb (lang_format targetLang) then inl InvalidTargetLangFormat
      else inr (text, targetLang)
    end end.

(** ** The validation rules in the order of the specification

    "request body must be present; text trimmed, fails with EmptyText if
    empty; fails with TextTooLong if length exceeds 2000 characters;
    targetLang trimmed, fails with EmptyTargetLang if empty; fails with
    InvalidTargetLangFormat if it contains any character outside
    [A-Za-z\s-]." *)
Definition validate_in_spec_order (data : JsVal)
  : JsError + (jsstring * jsstring) :=
  if negb (truthy data) then
    inl (TranslationError_default (js "Request must be JSON"))
  else
    match or_empty_trim (js "data.text") (request_field data "text") with
    | inl e => inl e
    | inr text =>
      if negb (truthy (JStr text)) then inl EmptyText
      else if MAX_TEXT_LENGTH <? N.of_nat (length text) then
        inl (TextTooLong (length text))
      else
        match or_empty_trim (js "data.target_lang")
                            (request_field data "target_lang") with
        | inl e => inl e
        | inr targetLang =>
          if negb (truthy (JStr targetLang)) then inl EmptyTargetLang
          else if negb (lang_format targetLang) then
            inl InvalidTargetLangFormat
          else inr (text, targetLang)
        end
    end.

(** The field [v] of a request is a string, or is falsy, and [(v || '')]
    trims to [s]. *)
Definition trims_to (v : JsVal) (s : jsstring) : Prop :=
  exists raw, js_or v (JStr []) = JStr raw /\ trim raw = s.

(** ** The host: environment and libraries

    [API_KEY] is read from the environment when the module is loaded.
    [franc] is the language-detection library: it answers an ISO 639-3
    code ([None] stands for an exception).  [coerced_gt0 v] is the
    comparison [v > 0] of the engine for an operand that is a string, an
    array or an object, which goes through [ToPrimitive] and
    [StringToNumber]. *)

Record Host : Type := {
  API_KEY : jsstring;
  franc : jsstring -> option jsstring;
  coerced_gt0 : JsVal -> bool
}.

(** [v > 0] *)
Definition js_gt0 (host : Host) (v : JsVal) : bool :=
  match v with
  | JUndefined | JNull => false
  | JBool b => b
  | JNum n => (0 <? n)%Z
  | JStr _ | JArr _ | JObj _ => coerced_gt0 host v
  end.

(** ** getSourceLanguage

    The codes of [franc] are three lower-case ASCII letters ("und" when the
    language is undetermined), so a lookup in the object literal
    [languageMap] finds one of its eleven entries or nothing. *)

Definition languageMap : list (jsstring * jsstring) :=
  [ (js "eng", js "EN"); (js "spa", js "ES"); (js "fra", js "FR");
    (js "deu", js "DE"); (js "ita", js "IT"); (js "por", js "PT");
    (js "rus", js "RU"); (js "jpn", js "JA"); (js "kor", js "KO");
    (js "zho", js "ZH"); (js "ara", js "AR") ].

Fixpoint languageMap_get (code : jsstring) (m : list (jsstring * jsstring))
  : option jsstring :=
  match m with
  | [] => None
  | (k, v) :: rest => if bool_decide (k = code) then Some v
                      else languageMap_get code rest
  end.

Definition getSourceLanguage (host : Host) (text : jsstring) : jsstring :=
  match franc host text with
  | Some langCode =>
      match languageMap_get langCode languageMap with
      | Some name => name
      | None => toUpperCase langCode
      end
  | None => js "Unknown"
  end.

(** ** Effects: Redis, the upstream API, the console and the clock *)

(** A string held by Redis, described by what [JSON.parse] makes of it. *)
Inductive JsonText : Type :=
| TextEmpty                 (* the empty string  *)
| TextInvalid               (* not a JSON text   *)
| TextOf (v : JsVal).       (* [JSON.stringify v] *)

Definition JSON_parse (t : JsonText) : JsError + JsVal :=
  match t with
  | TextEmpty => inl (Error (js "Unexpected end of JSON input"))
  | TextInvalid => inl (Error (js "Unexpected token in JSON"))
  | TextOf v => inr v
  end.

Definition text_truthy (t : JsonText) : bool :=
  match t with TextEmpty => false | _ => true end.

(** The Redis client: the entries of the store with their time to live in
    seconds, and the error, if any, with which each command rejects.  The
    store is keyed by the strings the program passes: two keys are the same
    entry when they are the same sequence of code units.  Expiry is the
    store's own business; an entry present here has not expired. *)
Record Redis : Type := {
  store : gmap jsstring (N * JsonText);
  get_error : option JsError;
  setEx_error : option JsError;
  ping_error : option JsError
}.

Inductive FetchBody : Type :=
| BodyRejects (message : jsstring)      (* [response.json()] rejects *)
| BodyJson (data : JsVal).

Inductive FetchOutcome : Type :=
| FetchRejects (message : jsstring)     (* [fetch] rejects *)
| FetchResponse (ok : bool) (status : N) (body : FetchBody).

Record FetchRequest : Type := {
  req_url : jsstring;
  req_authorization : jsstring;
  req_model : jsstring;
  req_system : jsstring;
  req_user : jsstring
}.

Inductive Event : Type :=
| EvRedisGet (key : jsstring)
| EvRedisSetEx (key : jsstring) (seconds : N) (value : JsonText)
| EvRedisPing
| EvFetch (request : FetchRequest)
| EvSleep (ms : N)
| EvLog (line : jsstring) (arg : option JsError).

(** The state of the process and of its collaborators.  [upstream] gives
    the outcome of the successive calls of [fetch], [fetches] counts the
    calls made so far, [clock] is [Date.now()], and [trace] records the
    effects in the order they happen. *)
Record World : Type := {
  redisClient : option Redis;
  upstream : nat -> FetchOutcome;
  fetches : nat;
  clock : N;
  trace : list Event
}.

Definition emit (e : Event) (w : World) : World :=
  {| redisClient := redisClient w; upstream := upstream w;
     fetches := fetches w; clock := clock w; trace := trace w ++ [e] |}.

Definition set_redisClient (c : option Redis) (w : World) : World :=
  {| redisClient := c; upstream := upstream w;
     fetches := fetches w; clock := clock w; trace := trace w |}.

(** The [error] listener of the client and the handler of a failed
    [connect]: the handle is dropped. *)
Definition redis_on_error (w : World) : World := set_redisClient None w.

(** Computations that read and change the world and may throw. *)
Definition M (A : Type) : Type := World -> (JsError + A) * World.

Definition ret {A} (a : A) : M A := fun w => (inr a, w).
Definition throw {A} (e : JsError) : M A := fun w => (inl e, w).
Definition bind {A B} (m : M A) (k : A -> M B) : M B :=
  fun w => match m w with
           | (inr a, w') => k a w'
           | (inl e, w') => (inl e, w')
           end.
(** [try { m } catch (error) { h error }] *)
Definition try_catch {A} (m : M A) (h : JsError -> M A) : M A :=
  fun w => match m w with
           | (inr a, w') => (inr a, w')
           | (inl e, w') => h e w'
           end.
Definition lift {A} (r : JsError + A) : M A := fun w => (r, w).

Declare Scope js_scope.
Delimit Scope js_scope with js.
Notation "x <- m ;; k" := (bind m (fun x => k))
  (at level 100, m at next level, right associativity) : js_scope.
Notation "m ;;; k" := (bind m (fun _ => k))
  (at level 100, right associativity) : js_scope.
Local Open Scope js_scope.

Definition console_log (line : jsstring) (arg : option JsError) : M unit :=
  fun w => (inr tt, emit (EvLog line arg) w).

Definition Date_now : M N := fun w => (inr (clock w), w).

(** [await sleep(ms)]: the timer fires no earlier than [ms] later. *)
Definition sleep (ms : N) : M unit :=
  fun w =>
    let w1 := emit (EvSleep ms) w in
    (inr tt, {| redisClient := redisClient w1; upstream := upstream w1;
                fetches := fetches w1; clock := clock w1 + ms;
                trace := trace w1 |}).

(** [await fetch(API_URL, ...)]: the next outcome of the upstream. *)
Definition fetch (request : FetchRequest) : World -> FetchOutcome * World :=
  fun w =>
    let w1 := emit (EvFetch request) w in
    (upstream w (fetches w),
     {| redisClient := redisClient w1; upstream := upstream w1;
        fetches := S (fetches w1); clock := clock w1; trace := trace w1 |}).

(** [await client.get(key)]: [null] when the key is absent. *)
Definition redis_get (c : Redis) (key : jsstring) : M (option JsonText) :=
  fun w =>
    let w1 := emit (EvRedisGet key) w in
    match get_error c with
    | Some e => (inl e, w1)
    | None => (inr (snd <$> store c !! key), w1)
    end.

(** [await client.setEx(key, seconds, value)] *)
Definition redis_setEx (c : Redis) (key : jsstring) (seconds : N)
    (value : JsonText) : M unit :=
  fun w =>
    let w1 := emit (EvRedisSetEx key seconds value) w in
    match setEx_error c with
    | Some e => (inl e, w1)
    | None =>
        (inr tt,
         set_redisClient
           (Some {| store := <[key := (seconds, value)]> (store c);
                    get_error := get_error c;
                    setEx_error := setEx_error c;
                    ping_error := ping_error c |}) w1)
    end.

(** [await client.ping()] *)
Definition redis_ping (c : Redis) : M unit :=
  fun w =>
    let w1 := emit EvRedisPing w in
    match ping_error c with
    | Some e => (inl e, w1)
    | None => (inr tt, w1)
    end.

(** ** callGroqApiWithBackoff *)

Section Server.

Variable host : Host.

Definition nullish_name (v : JsVal) : jsstring :=
  match v with JNull => js "null" | _ => js "undefined" end.

(** The [TypeError] of the engine for [v.name] with [v] nullish. *)
Definition cannot_read (v : JsVal) (name : string) : JsError :=
  TypeError (js "Cannot read properties of " ++ nullish_name v
             ++ js " (reading '" ++ js name ++ js "')").

(** [v.name], throwing on a nullish [v]. *)
Definition read (v : JsVal) (name : string) : JsError + JsVal :=
  match get_prop v (js name) with
  | Some x => inr x
  | None => inl (cannot_read v name)
  end.

(** Lines 159-170: what the body of the [try] makes of the parsed
    response. *)
Definition read_translation (data : JsVal) : JsError + jsstring :=
  let choices := default JUndefined (get_prop data (js "choices")) in
  if truthy data && truthy choices
     && js_gt0 host (default JUndefined (get_prop choices (js "length")))
  then
    match read (default JUndefined (get_first choices)) "message" with
    | inl e => inl e
    | inr message =>
    match read message "content" with
    | inl e => inl e
    | inr textContent =>
      match textContent with
      | JStr s =>
          let translatedText := trim s in
          if negb (truthy (JStr translatedText)) then
            inl (Error (js "LLM returned empty translation text."))
          else inr translatedText
      | JUndefined | JNull => inl (cannot_read textContent "trim")
      | _ => inl (TypeError (js "textContent.trim is not a function"))
      end
    end end
  else inl (Error (js "API returned unparseable response structure.")).

(** Lines 147-170: what one attempt makes of the outcome of [fetch]. *)
Definition read_response (r : FetchOutcome) : JsError + jsstring :=
  match r with
  | FetchRejects m => inl (Error m)
  | FetchResponse ok status body =>
      if negb ok then
        inl (Error (js "HTTP error! status: " ++ decimal status))
      else
        match body with
        | BodyRejects m => inl (Error m)
        | BodyJson data => read_translation data
        end
  end.

Definition groq_request (systemInstruction userPrompt : jsstring)
  : FetchRequest :=
  {| req_url := API_URL;
     req_authorization := js "Bearer " ++ API_KEY host;
     req_model := GROQ_MODEL;
     req_system := systemInstruction;
     req_user := userPrompt |}.

(** The body of the [try] of one iteration. *)
Definition attempt_once (request : FetchRequest) : M jsstring :=
  fun w => let (r, w') := fetch request w in (read_response r, w').

Definition retry_line (attempt currentDelay : N) (error : JsError)
  : jsstring :=
  js "API call failed (Attempt " ++ decimal (attempt + 1) ++ js "/"
  ++ decimal MAX_RETRIES ++ js "). Error: " ++ error_message error
  ++ js ". Retrying in " ++ decimal currentDelay ++ js "ms...".

(** The [catch] of one iteration: the delay for the next iteration, or
    the error thrown again. *)
Definition on_failure (attempt currentDelay : N) (error : JsError) : M N :=
  if attempt <? MAX_RETRIES - 1 then
    console_log (retry_line attempt currentDelay error) None ;;;
    sleep currentDelay ;;;
    ret (currentDelay * 2)
  else throw error.

(** The [for] loop, with [iterations] iterations left to run. *)
Fixpoint retry_loop (iterations : nat) (request : FetchRequest)
    (attempt currentDelay : N) : M jsstring :=
  match iterations with
  | O => throw (Error (js "Translation failed after maximum retries."))
  | S iterations' =>
      fun w =>
        match attempt_once request w with
        | (inr translatedText, w1) => (inr translatedText, w1)
        | (inl error, w1) =>
            match on_failure attempt currentDelay error w1 with
            | (inr nextDelay, w2) =>
                retry_loop iterations' request (attempt + 1) nextDelay w2
            | (inl e, w2) => (inl e, w2)
            end
        end
  end.

Definition callGroqApiWithBackoff (systemInstruction userPrompt : jsstring)
  : M jsstring :=
  retry_loop (N.to_nat MAX_RETRIES)
             (groq_request systemInstruction userPrompt) 0 BASE_DELAY.

(** ** processTranslation *)

Record TranslationResult : Type := {
  source_language : JsVal;
  target_language : jsstring;
  translated_text : JsVal;
  status : jsstring
}.

Definition cacheKey (textToTranslate targetLang : jsstring) : jsstring :=
  js "translation:" ++ textToTranslate ++ js "|" ++ targetLang.

Definition newline : N := 10.

Definition systemInstruction (sourceLanguageCode targetLang : jsstring)
  : jsstring :=
  [newline]
  ++ js "        You are a professional, high-quality language translator. Your task is to translate the provided text "
  ++ [newline]
  ++ js "        from " ++ sourceLanguageCode ++ js " to " ++ targetLang
  ++ js ". " ++ [newline]
  ++ js "        If the text contains slang, abbreviations, or shorthand, make a best effort to translate its intended meaning. "
  ++ [newline]
  ++ js "        If the text is truly incomprehensible or nonsensical, provide a literal translation followed by a brief, neutral note in parentheses indicating the uncertainty (e.g., 'Not clear' or 'Abbreviation'). "
  ++ [newline]
  ++ js "        IMPORTANT: You MUST ONLY return the translated text and NOTHING else. "
  ++ [newline]
  ++ js "        Do not include any introductory phrases, explanations, markdown formatting (like quotes or bolding), or punctuation beyond what is in the translation."
  ++ [newline] ++ js "    ".

(** Lines 192-207: the cache read.  [Some r] is the early [return]. *)
Definition cache_read (forceRefresh : bool) (key targetLang : jsstring)
  : M (option TranslationResult) :=
  fun w =>
    match forceRefresh, redisClient w with
    | false, Some client =>
        try_catch
          (cachedResultJson <- redis_get client key ;;
           match cachedResultJson with
           | Some json =>
               if text_truthy json then
                 cachedResult <- lift (JSON_parse json) ;;
                 sl <- lift (read cachedResult "source_language") ;;
                 tr <- lift (read cachedResult "translated_text") ;;
                 ret (Some {| source_language := sl;
                              target_language := targetLang;
                              translated_text := tr;
                              status := js "cached" |})
               else ret None
           | None => ret None
           end)
          (fun error =>
             console_log (js "Redis cache read error:") (Some error) ;;;
             ret None)
          w
    | _, _ => (inr None, w)
    end.

(** Lines 229-241: the cache write. *)
Definition cache_write (key sourceLanguageCode translatedText : jsstring)
  : M unit :=
  fun w =>
    match redisClient w with
    | Some client =>
        try_catch
          (now <- Date_now ;;
           let cacheData :=
             JObj [ (js "source_language", JStr sourceLanguageCode);
                    (js "translated_text", JStr translatedText);
                    (js "timestamp", JNum (Z.of_N now));
                    (js "model", JStr GROQ_MODEL) ] in
           redis_setEx client key CACHE_EXPIRY_SECONDS (TextOf cacheData))
          (fun error =>
             console_log (js "Redis cache write error:") (Some error))
          w
    | None => (inr tt, w)
    end.

(** [error.message.match(/status: (\d+)/)?.[1]] *)
Fixpoint match_status (m : jsstring) : option jsstring :=
  match m with
  | [] => None
  | _ :: m' =>
      if startsWith (js "status: ") m
         && negb (bool_decide
                    (leading_digits (drop (length (js "status: ")) m) = []))
      then Some (leading_digits (drop (length (js "status: ")) m))
      else match_status m'
  end.

(** Lines 245-266: the [catch] around the upstream call. *)
Definition classify (error : JsError) : JsError :=
  let message := error_message error in
  if includes (js "HTTP error") message then
    match match_status message with
    | Some statusCode =>
        TranslationError (js "Groq API Error (" ++ statusCode ++ js ")")
                         (parseInt_digits statusCode) (Some message)
    | None =>
        TranslationError (js "Groq API Error (" ++ decimal 500 ++ js ")")
                         500 (Some message)
    end
  else if includes (js "empty translation") message then
    TranslationError
      (js "The model struggled to generate a translation. The input may be too short or ambiguous.")
      400 (Some message)
  else
    TranslationError (js "An internal server error occurred") 500
                     (Some message).

Definition processTranslation (textToTranslate targetLang : jsstring)
    (clientIp : JsVal) (forceRefresh : bool) : M TranslationResult :=
  let sourceLanguageCode := getSourceLanguage host textToTranslate in
  let key := cacheKey textToTranslate targetLang in
  let statusType :=
    if forceRefresh then js "regenerated" else js "generated" in
  cached <- cache_read forceRefresh key targetLang ;;
  match cached with
  | Some result => ret result
  | None =>
      try_catch
        (translatedText <-
           callGroqApiWithBackoff
             (systemInstruction sourceLanguageCode targetLang)
             textToTranslate ;;
         let responseData :=
           {| source_language := JStr sourceLanguageCode;
              target_language := targetLang;
              translated_text := JStr translatedText;
              status := statusType |} in
         cache_write key sourceLanguageCode translatedText ;;;
         ret responseData)
        (fun error => throw (classify error))
  end.

(** ** The error-handling middleware and the routes *)

Record Request : Type := {
  body : JsVal;
  x_forwarded_for : JsVal;      (* [req.headers['x-forwarded-for']] *)
  ip : JsVal
}.

(** What a handler does with the request: [res.status(c).json(b)], or
    [next(error)]. *)
Inductive Reply : Type :=
| ResJson (statusCode : N) (payload : JsVal)
| Next (error : JsError).

Definition errorMiddleware (error : JsError) : Reply :=
  match error with
  | TranslationError message statusCode details =>
      ResJson statusCode
        (JObj [ (js "error", JStr message);
                (js "details",
                 match details with Some d => JStr d | None => JNull end);
                (js "status_code", JNum (Z.of_N statusCode)) ])
  | _ =>
      ResJson 500
        (JObj [ (js "error", JStr (js "Internal server error"));
                (js "details", JStr (error_message error));
                (js "status_code", JNum 500) ])
  end.

Definition result_json (r : TranslationResult) : JsVal :=
  JObj [ (js "source_language", source_language r);
         (js "target_language", JStr (target_language r));
         (js "translated_text", translated_text r);
         (js "status", JStr (status r)) ].

(** [try { ... res.json(result) } catch (error) { next(error) }] *)
Definition respond (m : M TranslationResult) : World -> Reply * World :=
  fun w =>
    match m w with
    | (inr result, w') => (ResJson 200 (result_json result), w')
    | (inl error, w') => (Next error, w')
    end.

(** [app.post('/api/translate', limiter, async (req, res, next) => ...)]:
    the handler that runs once the rate limiter has let the request
    through. *)
Definition translate_handler (req : Request) : World -> Reply * World :=
  respond
    (if negb (truthy (JStr (API_KEY host))) then
       throw (TranslationError (js "API key not configured") 500 None)
     else
       validated <- lift (validateInput (body req)) ;;
       let '(text, targetLang) := validated in
       let clientIp := js_or (x_forwarded_for req) (ip req) in
       processTranslation text targetLang clientIp false).

(** [app.post('/api/retranslate', limiter, async (req, res, next) => ...)] *)
Definition retranslate_handler (req : Request) : World -> Reply * World :=
  respond
    (if negb (truthy (JStr (API_KEY host))) then
       throw (TranslationError (js "API key not configured") 500 None)
     else
       validated <- lift (validateInput (body req)) ;;
       let '(text, targetLang) := validated in
       let clientIp := js_or (x_forwarded_for req) (ip req) in
       processTranslation text targetLang clientIp true).

(** [app.get('/api/health', ...)] *)
Definition health_handler : World -> Reply * World :=
  fun w =>
    let '(redisStatus, w1) :=
      match redisClient w with
      | Some client =>
          match redis_ping client w with
          | (inr _, w') => (js "connected", w')
          | (inl _, w') => (js "disconnected", w')
          end
      | None => (js "disconnected", w)
      end in
    let healthStatus :=
      JObj [ (js "status", JStr (js "healthy"));
             (js "redis", JStr redisStatus);
             (js "groq_api",
              JStr (if truthy (JStr (API_KEY host)) then js "configured"
                    else js "not_configured"));
             (js "max_text_length", JNum (Z.of_N MAX_TEXT_LENGTH));
             (js "rate_limit", JStr (js "1 second(s)"));
             (js "timestamp", JNum (Z.of_N (clock w1))) ] in
    (ResJson 200 healthStatus, w1).

End Server.

(** ** Observations on traces *)

(** The delays requested from [sleep], in order. *)
Definition sleeps (tr : list Event) : list N :=
  omap (fun e => match e with EvSleep ms => Some ms | _ => None end) tr.

(** The requests sent to the upstream API, in order. *)
Definition upstream_calls (tr : list Event) : list FetchRequest :=
  omap (fun e => match e with EvFetch r => Some r | _ => None end) tr.

(** The commands sent to Redis, in order. *)
Definition cache_ops (tr : list Event) : list Event :=
  omap (fun e => match e with
                 | EvRedisGet _ | EvRedisSetEx _ _ _ | EvRedisPing => Some e
                 | _ => None
                 end) tr.

Definition total (delays : list N) : N := fold_right N.add 0 delays.

(** The requests sent and the delays waited, in the order they happen. *)
Definition schedule (tr : list Event) : list Event :=
  omap (fun e => match e with
                 | EvFetch _ | EvSleep _ => Some e
                 | _ => None
                 end) tr.

(** ** The retry policy, as a function of the upstream outcomes alone

    [retry_result], [retry_delays] and [retry_attempts] say what a run of
    [limit] attempts starting at outcome number [start] returns, which
    delays it waits and how many requests it sends, without the world. *)

Section RetryPolicy.

Variable host : Host.
Variable ups : nat -> FetchOutcome.

Fixpoint retry_result (start limit : nat) : JsError + jsstring :=
  match limit with
  | O => inl (Error (js "Translation failed after maximum retries."))
  | S limit' =>
      match read_response host (ups start), limit' with
      | inr t, _ => inr t
      | inl e, O => inl e
      | inl _, S _ => retry_result (S start) limit'
      end
  end.

Fixpoint retry_delays (start limit : nat) (delay : N) : list N :=
  match limit with
  | O => []
  | S limit' =>
      match read_response host (ups start), limit' with
      | inr _, _ => []
      | inl _, O => []
      | inl _, S _ => delay :: retry_delays (S start) limit' (delay * 2)
      end
  end.

Fixpoint retry_attempts (start limit : nat) : nat :=
  match limit with
  | O => O
  | S limit' =>
      match read_response host (ups start) with
      | inr _ => 1
      | inl _ => S (retry_attempts (S start) limit')
      end
  end.

End RetryPolicy.

(** What a run of the loop returns and does, in terms of the retry
    policy. *)
Record run_spec (host : Host) (request : FetchRequest) (limit : nat)
    (delay : N) (w : World) (out : (JsError + jsstring) * World) : Prop := {
  run_result : fst out = retry_result host (upstream w) (fetches w) limit;
  run_sleeps :
    sleeps (trace (snd out))
    = sleeps (trace w)
      ++ retry_delays host (upstream w) (fetches w) limit delay;
  run_fetches :
    fetches (snd out)
    = (fetches w + retry_attempts host (upstream w) (fetches w) limit)%nat;
  run_calls :
    upstream_calls (trace (snd out))
    = upstream_calls (trace w)
      ++ repeat request
           (retry_attempts host (upstream w) (fetches w) limit);
  run_cache_ops : cache_ops (trace (snd out)) = cache_ops (trace w);
  run_redisClient : redisClient (snd out) = redisClient w;
  run_upstream : upstream (snd out) = upstream w;
  run_clock :
    clock (snd out)
    = clock w
      + total (retry_delays host (upstream w) (fetches w) limit delay)
}.

(** What the cache read of [processTranslation] returns early, as a
    function of the client alone. *)
Definition cache_hit (forceRefresh : bool) (key targetLang : jsstring)
    (client : option Redis) : option TranslationResult :=
  match forceRefresh, client with
  | false, Some c =>
      match get_error c, snd <$> store c !! key with
      | None, Some (TextOf v) =>
          match get_prop v (js "source_language"),
                get_prop v (js "translated_text") with
          | Some sl, Some tr =>
              Some {| source_language := sl; target_language := targetLang;
                      translated_text := tr; status := js "cached" |}
          | _, _ => None
          end
      | _, _ => None
      end
  | _, _ => None
  end.

(** The entry that [processTranslation] stores. *)
Definition cache_entry (sourceLanguageCode translatedText : jsstring)
    (now : N) : JsonText :=
  TextOf (JObj [ (js "source_language", JStr sourceLanguageCode);
                 (js "translated_text", JStr translatedText);
                 (js "timestamp", JNum (Z.of_N now));
                 (js "model", JStr GROQ_MODEL) ]).

(** A client whose writes reject with [e], or succeed when [e] is [None]. *)
Definition with_setEx_error (e : option JsError) (c : Redis) : Redis :=
  {| store := store c; get_error := get_error c; setEx_error := e;
     ping_error := ping_error c |}.

(** The command that the cache read of [processTranslation] sends. *)
Definition reads_of (forceRefresh : bool) (key : jsstring)
    (client : option Redis) : list Event :=
  match forceRefresh, client with
  | false, Some _ => [EvRedisGet key]
  | _, _ => []
  end.

(** The command that the cache write sends. *)
Definition writes_of (key : jsstring) (entry : JsonText)
    (client : option Redis) : list Event :=
  match client with
  | Some _ => [EvRedisSetEx key CACHE_EXPIRY_SECONDS entry]
  | None => []
  end.

(** The client after the cache write. *)
Definition written (key : jsstring) (entry : JsonText)
    (client : option Redis) : option Redis :=
  match client with
  | Some c =>
      match setEx_error c with
      | Some _ => Some c
      | None =>
          Some {| store := <[key := (CACHE_EXPIRY_SECONDS, entry)]> (store c);
                  get_error := get_error c;
                  setEx_error := setEx_error c;
                  ping_error := ping_error c |}
      end
  | None => None
  end.

(** The result that [processTranslation] builds from a translation. *)
Definition fresh_result (host : Host) (text lang : jsstring)
    (forceRefresh : bool) (t : jsstring) : TranslationResult :=
  {| source_language := JStr (getSourceLanguage host text);
     target_language := lang;
     translated_text := JStr t;
     status := if forceRefresh then js "regenerated" else js "generated" |}.

(** Exponential backoff: [k] delays, the first one [delay], each the
    double of the one before. *)
Fixpoint backoff (delay : N) (k : nat) : list N :=
  match k with
  | O => []
  | S k' => delay :: backoff (delay * 2) k'
  end.

(** The schedule of a run with [failures] failed attempts before its
    last attempt: each failed attempt is followed by its delay, doubling
    from [delay], and the last attempt by nothing. *)
Fixpoint attempts_and_waits (request : FetchRequest) (delay : N)
    (failures : nat) : list Event :=
  match failures with
  | O => [EvFetch request]
  | S failures' =>
      EvFetch request :: EvSleep delay
      :: attempts_and_waits request (delay * 2) failures'
  end.

(** Whether an attempt that meets outcome [r] fails. *)
Definition attempt_fails (host : Host) (r : FetchOutcome) : bool :=
  match read_response host r with
  | inl _ => true
  | inr _ => false
  end.

Definition succeeded {A} (r : JsError + A) : bool :=
  match r with inl _ => false | inr _ => true end.

(** ** The acceptance rule in the words of the specification

    "A response is accepted only if it contains at least one choice with
    non-empty (post-trim) message content." *)
Definition has_nonempty_choice (r : FetchOutcome) : Prop :=
  exists ok status data choices choice message s,
    r = FetchResponse ok status (BodyJson data)
    /\ get_prop data (js "choices") = Some (JArr choices)
    /\ In choice choices
    /\ get_prop choice (js "message") = Some message
    /\ get_prop message (js "content") = Some (JStr s)
    /\ trim s <> [].

(** The acceptance rule of the code: the response is successful, its body
    parses, and element 0 of a non-empty [choices] carries a string that is
    not empty once trimmed. *)
Inductive accepts (host : Host) : FetchOutcome -> jsstring -> Prop :=
| accepts_first status data choices len first message s :
    truthy data = true ->
    get_prop data (js "choices") = Some choices ->
    truthy choices = true ->
    get_prop choices (js "length") = Some len ->
    js_gt0 host len = true ->
    get_first choices = Some first ->
    get_prop first (js "message") = Some message ->
    get_prop message (js "content") = Some (JStr s) ->
    trim s <> [] ->
    accepts host (FetchResponse true status (BodyJson data)) (trim s).

(** A pair that [validateInput] lets through. *)
Definition validated (text targetLang : jsstring) : Prop :=
  exists data, validateInput data = inr (text, targetLang).

(** ** Sample hosts, responses and worlds *)

Definition sample_host : Host :=
  {| API_KEY := js "gsk_sample";
     franc := fun _ => Some (js "eng");
     coerced_gt0 := fun _ => false |}.

Definition keyless_host : Host :=
  {| API_KEY := [];
     franc := fun _ => Some (js "eng");
     coerced_gt0 := fun _ => false |}.

(** A host whose detector cannot tell the language. *)
Definition undetermined_host : Host :=
  {| API_KEY := js "gsk_sample";
     franc := fun _ => Some (js "und");
     coerced_gt0 := fun _ => false |}.

(** A chat completion with the given message contents, one per choice. *)
Definition completion (contents : list jsstring) : FetchOutcome :=
  FetchResponse true 200
    (BodyJson
       (JObj [ (js "choices",
                JArr (List.map
                        (fun c => JObj [ (js "message",
                                          JObj [ (js "content", JStr c) ]) ])
                        contents)) ])).

Definition http_failure (status : N) : FetchOutcome :=
  FetchResponse false status (BodyRejects (js "body not read")).

Definition healthy_redis (entries : gmap jsstring (N * JsonText)) : Redis :=
  {| store := entries; get_error := None; setEx_error := None;
     ping_error := None |}.

Definition broken_redis (e : JsError) : Redis :=
  {| store := ∅; get_error := Some e; setEx_error := Some e;
     ping_error := Some e |}.

Definition world_with (client : option Redis) (ups : nat -> FetchOutcome)
  : World :=
  {| redisClient := client; upstream := ups; fetches := 0; clock := 0;
     trace := [] |}.

(** Four failures of four kinds, then a completion. *)
Definition flaky_upstream (i : nat) : FetchOutcome :=
  match i with
  | 0%nat => http_failure 503
  | 1%nat => FetchRejects (js "socket hang up")
  | 2%nat => completion [js "   "]
  | 3%nat => FetchResponse true 200 (BodyJson (JObj []))
  | _ => completion [js " Hola mundo "]
  end.

Definition steady_upstream (i : nat) : FetchOutcome :=
  completion [js "Hola mundo"].

Definition dead_upstream (i : nat) : FetchOutcome :=
  http_failure (500 + N.of_nat i).

Definition hello_body : JsVal :=
  JObj [ (js "text", JStr (js "Hello world"));
         (js "target_lang", JStr (js "Spanish")) ].

Definition text_of_length (n : nat) : jsstring := repeat 97 n.

(** A body whose [target_lang] is a number. *)
Definition numeric_lang_body (text : jsstring) : JsVal :=
  JObj [ (js "text", JStr text); (js "target_lang", JNum 5) ].

(** An entry as [processTranslation] stores it, and a store that holds it
    under the key of "Hello world" to Spanish. *)
Definition cached_hola : JsVal :=
  JObj [ (js "source_language", JStr (js "FR"));
         (js "translated_text", JStr (js "Hola mundo"));
         (js "timestamp", JNum 1700000000000);
         (js "model", JStr GROQ_MODEL) ].

Definition warm_redis : Redis :=
  healthy_redis
    {[ cacheKey (js "Hello world") (js "Spanish")
       := (CACHE_EXPIRY_SECONDS, TextOf cached_hola) ]}.

Definition sample_request (b : JsVal) : Request :=
  {| body := b; x_forwarded_for := JUndefined; ip := JStr (js "127.0.0.1") |}.

(** ** The playground: what [makeRequest] does before it sends

    [script.js], lines 47-87.  The two values come from the form; the
    function shows an error and returns, or posts the JSON body
    [{text, target_lang}] to the endpoint. *)

(** The markup that [makeRequest] passes to [showResult] for an error. *)
Definition error_html (message : jsstring) : jsstring :=
  js "<div class=" ++ [dquote] ++ js "error" ++ [dquote]
  ++ js "><h3>Error</h3><div class=" ++ [dquote] ++ js "result-content"
  ++ [dquote] ++ js ">" ++ message ++ js "</div></div>".

Inductive PlaygroundStep : Type :=
| ShowResult (content : jsstring) (isError : bool)
| PostJson (endpoint : jsstring) (payload : JsVal).

Definition makeRequest_checks (endpoint textValue langValue : jsstring)
  : PlaygroundStep :=
  let text := trim textValue in
  let targetLang := trim langValue in
  if negb (truthy (JStr text)) then
    ShowResult (error_html (js "Please enter text to translate")) true
  else if negb (truthy (JStr targetLang)) then
    ShowResult (error_html (js "Please enter target language")) true
  else if 2000 <? N.of_nat (length text) then
    ShowResult
      (error_html (js "Text exceeds maximum length of 2000 characters")) true
  else
    PostJson endpoint
             (JObj [ (js "text", JStr text);
                     (js "target_lang", JStr targetLang) ]).

(** [translateText] and [retranslateText] *)
Definition translateText (textValue langValue : jsstring) : PlaygroundStep :=
  makeRequest_checks (js "/api/translate") textValue langValue.

Definition retranslateText (textValue langValue : jsstring)
  : PlaygroundStep :=
  makeRequest_checks (js "/api/retranslate") textValue langValue.

(** * Theorems *)

(** ** Strings *)

Module JsStringFacts.

Lemma js_or_string (v : JsVal) (raw : jsstring) :
  js_or v (JStr []) = JStr raw ->
  (v = JStr raw /\ raw <> []) \/ (truthy v = false /\ raw = []).
Proof.
  unfold js_or. destruct (truthy v) eqn:Hv.
  - intros ->. left. split; [reflexivity|]. now destruct raw.
  - intros [= <-]. now right.
Qed.

Lemma or_empty_trim_inr (expr : jsstring) (v : JsVal) (s : jsstring) :
  or_empty_trim expr v = inr s <-> trims_to v s.
Proof.
  unfold or_empty_trim, trims_to. split.
  - destruct (js_or v (JStr [])) eqn:E; try discriminate.
    intros [= <-]. eauto.
  - intros (raw & -> & <-). reflexivity.
Qed.

Lemma or_empty_trim_inl (expr : jsstring) (v : JsVal) (e : JsError) :
  or_empty_trim expr v = inl e ->
  e = TypeError (js "(" ++ expr ++ js " || " ++ [dquote; dquote]
                 ++ js ").trim is not a function").
Proof.
  unfold or_empty_trim.
  destruct (js_or v (JStr [])); congruence.
Qed.

(** The separator splits a key at its last occurrence. *)
Lemma split_at_last (x : N) (a a' b b' : jsstring) :
  x ∉ b -> x ∉ b' -> a ++ x :: b = a' ++ x :: b' -> a = a' /\ b = b'.
Proof.
  revert a'. induction a as [|c a IH]; intros [|c' a'] Hb Hb' E; simpl in E.
  - now inversion E.
  - inversion E; subst. exfalso. apply Hb.
    apply elem_of_app. right. apply list_elem_of_here.
  - inversion E; subst. exfalso. apply Hb'.
    apply elem_of_app. right. apply list_elem_of_here.
  - inversion E; subst. destruct (IH a' Hb Hb' H1) as [E1 E2].
    now rewrite E1, E2.
Qed.

Lemma lang_format_chars (l : jsstring) (c : N) :
  lang_format l = true -> c ∈ l -> lang_char c = true.
Proof.
  unfold lang_format. destruct l as [|d l]; [discriminate|].
  intros H Hin. rewrite forallb_forall in H. apply H.
  now apply list_elem_of_In.
Qed.

Lemma lang_format_no_bar (l : jsstring) : lang_format l = true -> 124 ∉ l.
Proof.
  intros H Hin. pose proof (lang_format_chars l 124 H Hin) as E.
  vm_compute in E. discriminate.
Qed.

End JsStringFacts.
Import JsStringFacts.

(** ** validateInput *)

Section ValidateInputFacts.

Implicit Types (data : JsVal) (text lang : jsstring).

Lemma TextTooLong_message (n : nat) :
  error_message (TextTooLong n)
  = js "Text too long. Maximum 2000 characters.".
Proof. reflexivity. Qed.

Lemma TextTooLong_2001 :
  TextTooLong 2001
  = TranslationError (js "Text too long. Maximum 2000 characters.") 400
                     (Some (js "Text length: 2001 characters")).
Proof. reflexivity. Qed.

(** On a body whose two fields are strings or falsy, the function is the
    chain of the four checks on the trimmed fields. *)
Lemma validateInput_on_strings data text lang :
  truthy data = true ->
  trims_to (request_field data "text") text ->
  trims_to (request_field data "target_lang") lang ->
  validateInput data =
    if MAX_TEXT_LENGTH <? N.of_nat (length text) then
      inl (TextTooLong (length text))
    else if negb (truthy (JStr text)) then inl EmptyText
    else if negb (truthy (JStr lang)) then inl EmptyTargetLang
    else if negb (lang_format lang) then inl InvalidTargetLangFormat
    else inr (text, lang).
Proof.
  intros Hd Ht Hl. unfold validateInput. rewrite Hd. simpl negb. cbv iota.
  apply (or_empty_trim_inr (js "data.text")) in Ht.
  apply (or_empty_trim_inr (js "data.target_lang")) in Hl.
  rewrite Ht, Hl. reflexivity.
Qed.

(** What a pair that passes validation satisfies. *)
(** A branch that cannot have produced the result at hand. *)
Ltac other_branch := let E := fresh "E" in intros E; discriminate E.

Lemma validateInput_inr_fields data (p : jsstring * jsstring) :
  validateInput data = inr p ->
  truthy data = true
  /\ (exists t, trims_to (request_field data "text") t)
  /\ (exists l, trims_to (request_field data "target_lang") l).
Proof.
  unfold validateInput.
  destruct (truthy data) eqn:Hd; cbn [negb]; [|other_branch].
  destruct (or_empty_trim _ (request_field data "text")) as [e|t] eqn:Et;
    [other_branch|].
  destruct (or_empty_trim _ (request_field data "target_lang"))
    as [e|l] eqn:El; [other_branch|].
  intros _. apply or_empty_trim_inr in Et. apply or_empty_trim_inr in El.
  eauto.
Qed.

Lemma validateInput_sound data text lang :
  validateInput data = inr (text, lang) ->
  truthy data = true
  /\ trims_to (request_field data "text") text
  /\ trims_to (request_field data "target_lang") lang
  /\ (length text <= 2000)%nat /\ text <> [] /\ lang_format lang = true.
Proof.
  intros H.
  destruct (validateInput_inr_fields _ _ H) as (Hd & [t Ht] & [l Hl]).
  rewrite (validateInput_on_strings data t l Hd Ht Hl) in H.
  destruct (MAX_TEXT_LENGTH <? N.of_nat (length t)) eqn:Hlen;
    [discriminate H|].
  destruct (negb (truthy (JStr t))) eqn:Hne; [discriminate H|].
  destruct (negb (truthy (JStr l))) eqn:Hle; [discriminate H|].
  destruct (negb (lang_format l)) eqn:Hf; [discriminate H|].
  injection H as <- <-.
  apply negb_false_iff in Hf. apply N.ltb_ge in Hlen.
  unfold MAX_TEXT_LENGTH in Hlen.
  repeat split; try assumption; [lia|].
  intros ->. discriminate Hne.
Qed.

Lemma validated_lang_format text lang :
  validated text lang -> lang_format lang = true.
Proof. intros [data H]. now apply validateInput_sound in H. Qed.

(** The order of the text checks cannot be observed: an empty text is not
    too long. *)
Lemma validate_orders_agree data lang :
  truthy data = true ->
  trims_to (request_field data "target_lang") lang ->
  validateInput data = validate_in_spec_order data.
Proof.
  intros Hd Hl. unfold validateInput, validate_in_spec_order.
  rewrite Hd. simpl negb. cbv iota.
  destruct (or_empty_trim _ (request_field data "text")) as [e|t];
    [reflexivity|].
  apply (or_empty_trim_inr (js "data.target_lang")) in Hl. rewrite Hl.
  destruct t as [|c t]; [reflexivity|].
  simpl truthy. simpl negb. cbv iota. reflexivity.
Qed.

(** A result of [validateInput] that is not a too-long error. *)
Lemma not_too_long data text :
  truthy data = true ->
  trims_to (request_field data "text") text ->
  (length text <= 2000)%nat ->
  forall n, validateInput data <> inl (TextTooLong n).
Proof.
  intros Hd Ht Hlen n E.
  assert (Hm : match validateInput data with
               | inl e => error_message e
               | inr _ => []
               end = js "Text too long. Maximum 2000 characters.")
    by (rewrite E; reflexivity).
  clear E. unfold validateInput in Hm. rewrite Hd in Hm. cbn [negb] in Hm.
  apply (or_empty_trim_inr (js "data.text")) in Ht. rewrite Ht in Hm.
  destruct (or_empty_trim _ (request_field data "target_lang"))
    as [e|l] eqn:El.
  - apply or_empty_trim_inl in El. subst e.
    vm_compute in Hm. discriminate Hm.
  - replace (MAX_TEXT_LENGTH <? N.of_nat (length text)) with false in Hm
      by (symmetry; apply N.ltb_ge; unfold MAX_TEXT_LENGTH; lia).
    destruct (negb (truthy (JStr text)));
      [vm_compute in Hm; discriminate Hm|].
    destruct (negb (truthy (JStr l)));
      [vm_compute in Hm; discriminate Hm|].
    destruct (negb (lang_format l)); vm_compute in Hm; discriminate Hm.
Qed.

End ValidateInputFacts.

Section ValidateInputClaims.

Lemma trims_to_string (raw : jsstring) : trims_to (JStr raw) (trim raw).
Proof.
  exists (match raw with [] => [] | _ => raw end).
  destruct raw; split; reflexivity.
Qed.

Lemma numeric_lang_body_TypeError (text : jsstring) :
  validateInput (numeric_lang_body text)
  = inl (TypeError (js "(data.target_lang || " ++ [dquote; dquote]
                    ++ js ").trim is not a function")).
Proof.
  unfold validateInput, numeric_lang_body, request_field, or_empty_trim.
  destruct text; reflexivity.
Qed.

(** C7.  A body whose text trims to 2000 characters is never rejected
    for its length.  A body whose text trims to 2001 characters is
    rejected with the 400 error whose details are "Text length: 2001
    characters" when its [target_lang] is a string or is falsy, and the
    rules taken in the order of the specification reject it so whatever
    [target_lang] is; but for the body [{text: <2001 characters>,
    target_lang: 5}] the function throws a [TypeError] on line 72, before
    the length is looked at. *)
Theorem text_length_boundary :
  (forall data text,
      truthy data = true ->
      trims_to (request_field data "text") text ->
      length text = 2000%nat ->
      forall n, validateInput data <> inl (TextTooLong n))
  /\ (forall data text,
        truthy data = true ->
        trims_to (request_field data "text") text ->
        length text = 2001%nat ->
        validate_in_spec_order data
        = inl (TranslationError
                 (js "Text too long. Maximum 2000 characters.") 400
                 (Some (js "Text length: 2001 characters")))
        /\ forall lang,
            trims_to (request_field data "target_lang") lang ->
            validateInput data
            = inl (TranslationError
                     (js "Text too long. Maximum 2000 characters.") 400
                     (Some (js "Text length: 2001 characters"))))
  /\ (trims_to (request_field (numeric_lang_body (text_of_length 2001))
                              "text") (text_of_length 2001)
      /\ length (text_of_length 2001) = 2001%nat
      /\ exists message,
          validateInput (numeric_lang_body (text_of_length 2001))
          = inl (TypeError message)).
Proof.
  split; [|split].
  - intros data text Hd Ht Hlen. apply (not_too_long data text Hd Ht). lia.
  - intros data text Hd Ht Hlen. split.
    + unfold validate_in_spec_order. rewrite Hd. cbn [negb].
      apply (or_empty_trim_inr (js "data.text")) in Ht. rewrite Ht.
      destruct text as [|c text]; [discriminate Hlen|].
      cbn [truthy negb]. rewrite Hlen. reflexivity.
    + intros lang Hl.
      rewrite (validateInput_on_strings data text lang Hd Ht Hl).
      rewrite Hlen. reflexivity.
  - split; [|split].
    + exists (text_of_length 2001). split; vm_compute; reflexivity.
    + apply repeat_length.
    + eexists. apply numeric_lang_body_TypeError.
Qed.

(** C10.  A body whose text trims to the empty string is never rejected
    as too long; it is rejected with the empty-text error when its
    [target_lang] is a string or is falsy, and then the function agrees
    with the rules taken in the order of the specification, which give
    the empty-text error whatever [target_lang] is; but for the body
    [{text: "", target_lang: 5}] the function throws a [TypeError] on
    line 72, before the text is looked at. *)
Theorem empty_text_rejected :
  (forall data,
      truthy data = true ->
      trims_to (request_field data "text") [] ->
      (forall n, validateInput data <> inl (TextTooLong n))
      /\ validate_in_spec_order data = inl EmptyText
      /\ forall lang,
          trims_to (request_field data "target_lang") lang ->
          validateInput data = inl EmptyText)
  /\ (trims_to (request_field (numeric_lang_body []) "text") []
      /\ exists message,
          validateInput (numeric_lang_body []) = inl (TypeError message)).
Proof.
  split.
  - intros data Hd Ht. split; [|split].
    + apply (not_too_long data [] Hd Ht). simpl. lia.
    + unfold validate_in_spec_order. rewrite Hd. cbn [negb].
      apply (or_empty_trim_inr (js "data.text")) in Ht. rewrite Ht.
      reflexivity.
    + intros lang Hl.
      rewrite (validateInput_on_strings data [] lang Hd Ht Hl).
      reflexivity.
  - split.
    + exists []. split; reflexivity.
    + eexists. apply numeric_lang_body_TypeError.
Qed.

(** Distinct validated pairs have distinct keys. *)
Lemma cacheKey_inj (t l t' l' : jsstring) :
  lang_format l = true -> lang_format l' = true ->
  cacheKey t l = cacheKey t' l' -> t = t' /\ l = l'.
Proof.
  intros Hl Hl' E. unfold cacheKey in E.
  apply app_inv_head in E.
  change (js "|" ++ l) with (124 :: l) in E.
  change (js "|" ++ l') with (124 :: l') in E.
  apply (split_at_last 124 t t' l l'); auto using lang_format_no_bar.
Qed.

End ValidateInputClaims.

(** ** callGroqApiWithBackoff *)

Section RetryFacts.

Variable host : Host.
Variable request : FetchRequest.

Lemma sleeps_app (tr tr' : list Event) :
  sleeps (tr ++ tr') = sleeps tr ++ sleeps tr'.
Proof. apply omap_app. Qed.

Lemma upstream_calls_app (tr tr' : list Event) :
  upstream_calls (tr ++ tr') = upstream_calls tr ++ upstream_calls tr'.
Proof. apply omap_app. Qed.

Lemma cache_ops_app (tr tr' : list Event) :
  cache_ops (tr ++ tr') = cache_ops tr ++ cache_ops tr'.
Proof. apply omap_app. Qed.

Lemma observe_fetch (tr : list Event) :
  sleeps (tr ++ [EvFetch request]) = sleeps tr
  /\ upstream_calls (tr ++ [EvFetch request])
     = upstream_calls tr ++ [request]
  /\ cache_ops (tr ++ [EvFetch request]) = cache_ops tr.
Proof.
  rewrite sleeps_app, upstream_calls_app, cache_ops_app. simpl.
  now rewrite !app_nil_r.
Qed.

Lemma observe_backoff (tr : list Event) (line : jsstring) (delay : N) :
  sleeps (tr ++ [EvLog line None] ++ [EvSleep delay]) = sleeps tr ++ [delay]
  /\ upstream_calls (tr ++ [EvLog line None] ++ [EvSleep delay])
     = upstream_calls tr
  /\ cache_ops (tr ++ [EvLog line None] ++ [EvSleep delay]) = cache_ops tr.
Proof.
  rewrite sleeps_app, upstream_calls_app, cache_ops_app. simpl.
  now rewrite !app_nil_r.
Qed.

(** One attempt sends one request and reads the next outcome. *)
Lemma attempt_once_eq (w : World) :
  attempt_once host request w
  = (read_response host (upstream w (fetches w)),
     {| redisClient := redisClient w; upstream := upstream w;
        fetches := S (fetches w); clock := clock w;
        trace := trace w ++ [EvFetch request] |}).
Proof. reflexivity. Qed.

(** Before the last attempt, a failure of any kind is logged and followed
    by a sleep of the current delay, and the delay doubles. *)
Lemma on_failure_retry (attempt delay : N) (error : JsError) (w : World) :
  attempt < MAX_RETRIES - 1 ->
  on_failure attempt delay error w
  = (inr (delay * 2),
     {| redisClient := redisClient w; upstream := upstream w;
        fetches := fetches w; clock := clock w + delay;
        trace := trace w
                 ++ [EvLog (retry_line attempt delay error) None]
                 ++ [EvSleep delay] |}).
Proof.
  intros H. unfold on_failure. apply N.ltb_lt in H. rewrite H.
  unfold bind, console_log, sleep, ret, emit. simpl.
  rewrite <- app_assoc. reflexivity.
Qed.

(** On the last attempt the error is thrown again as it is. *)
Lemma on_failure_last (attempt delay : N) (error : JsError) (w : World) :
  MAX_RETRIES - 1 <= attempt ->
  on_failure attempt delay error w = (inl error, w).
Proof.
  intros H. unfold on_failure. apply N.ltb_ge in H. rewrite H. reflexivity.
Qed.

(** The equations of the retry policy. *)
Section Equations.

Variable ups : nat -> FetchOutcome.
Variables (start limit : nat) (delay : N).

Lemma policy_success (t : jsstring) :
  read_response host (ups start) = inr t ->
  retry_result host ups start (S limit) = inr t
  /\ retry_delays host ups start (S limit) delay = []
  /\ retry_attempts host ups start (S limit) = 1%nat.
Proof. intros R. simpl. rewrite R. now destruct limit. Qed.

Lemma policy_last_failure (e : JsError) :
  read_response host (ups start) = inl e ->
  retry_result host ups start 1 = inl e
  /\ retry_delays host ups start 1 delay = []
  /\ retry_attempts host ups start 1 = 1%nat.
Proof. intros R. simpl. now rewrite R. Qed.

Lemma policy_failure (e : JsError) :
  read_response host (ups start) = inl e ->
  retry_result host ups start (S (S limit))
  = retry_result host ups (S start) (S limit)
  /\ retry_delays host ups start (S (S limit)) delay
     = delay :: retry_delays host ups (S start) (S limit) (delay * 2)
  /\ retry_attempts host ups start (S (S limit))
     = S (retry_attempts host ups (S start) (S limit)).
Proof.
  intros R.
  change (retry_result host ups start (S (S limit)))
    with (match read_response host (ups start) with
          | inr t => inr t
          | inl _ => retry_result host ups (S start) (S limit)
          end).
  change (retry_delays host ups start (S (S limit)) delay)
    with (match read_response host (ups start) with
          | inr _ => []
          | inl _ =>
              delay :: retry_delays host ups (S start) (S limit)
                         (delay * 2)
          end).
  change (retry_attempts host ups start (S (S limit)))
    with (match read_response host (ups start) with
          | inr _ => 1%nat
          | inl _ => S (retry_attempts host ups (S start) (S limit))
          end).
  now rewrite R.
Qed.

End Equations.

Lemma retry_loop_spec (limit : nat) :
  forall (attempt delay : N) (w : World),
    (N.to_nat attempt + limit = N.to_nat MAX_RETRIES)%nat ->
    run_spec host request limit delay w
             (retry_loop host limit request attempt delay w).
Proof.
  induction limit as [|limit IH]; intros attempt delay w Hsum.
  - split; simpl; rewrite ?app_nil_r, ?Nat.add_0_r, ?N.add_0_r;
      reflexivity.
  - cbn [retry_loop]. rewrite attempt_once_eq.
    destruct (observe_fetch (trace w)) as (O1 & O2 & O3).
    destruct (read_response host (upstream w (fetches w))) as [e|t] eqn:R.
    + destruct limit as [|limit].
      * rewrite on_failure_last
          by (unfold MAX_RETRIES in *; simpl in Hsum; lia).
        destruct (policy_last_failure (upstream w) (fetches w) delay e R)
          as (P1 & P2 & P3).
        split; rewrite ?P1, ?P2, ?P3;
          cbn [fst snd redisClient upstream fetches clock trace total
               fold_right repeat];
          rewrite ?O1, ?O2, ?O3, ?app_nil_r, ?N.add_0_r;
          try reflexivity; lia.
      * rewrite on_failure_retry
          by (unfold MAX_RETRIES in *; simpl in Hsum; lia).
        cbn [redisClient upstream fetches clock trace].
        destruct (policy_failure (upstream w) (fetches w) limit delay e R)
          as (P1 & P2 & P3).
        destruct (observe_backoff (trace w ++ [EvFetch request])
                    (retry_line attempt delay e) delay) as (Q1 & Q2 & Q3).
        match goal with
        | |- run_spec _ _ _ _ _ (retry_loop _ _ _ _ _ ?w1) =>
            destruct (IH (attempt + 1) (delay * 2) w1)
              as [A B C D E F G H]; [lia|]
        end.
        cbn [redisClient upstream fetches clock trace]
          in A, B, C, D, E, F, G, H.
        split; rewrite ?P1, ?P2, ?P3.
        -- exact A.
        -- rewrite B, Q1, O1, <- app_assoc. reflexivity.
        -- rewrite C. lia.
        -- rewrite D, Q2, O2, <- app_assoc. reflexivity.
        -- rewrite E, Q3, O3. reflexivity.
        -- exact F.
        -- exact G.
        -- rewrite H. change (total (delay :: ?l)) with (delay + total l).
           lia.
    + destruct (policy_success (upstream w) (fetches w) limit delay t R)
        as (P1 & P2 & P3).
      split; rewrite ?P1, ?P2, ?P3;
        cbn [fst snd redisClient upstream fetches clock trace total
             fold_right repeat];
        rewrite ?O1, ?O2, ?O3, ?app_nil_r, ?N.add_0_r;
        try reflexivity; lia.
Qed.

End RetryFacts.

Section PolicyFacts.

Variable host : Host.
Variable ups : nat -> FetchOutcome.

Lemma retry_attempts_le (limit start : nat) :
  (retry_attempts host ups start limit <= limit)%nat.
Proof.
  revert start. induction limit as [|limit IH]; intros start; simpl.
  - lia.
  - destruct (read_response host (ups start)); [|lia].
    specialize (IH (S start)). lia.
Qed.

(** [k] failures, then an accepted response: the translation is returned
    after [k] delays. *)
Lemma policy_failures_then_success (k : nat) :
  forall (limit start : nat) (delay : N) (t : jsstring),
    (k < limit)%nat ->
    (forall i, (i < k)%nat ->
               attempt_fails host (ups (start + i)%nat) = true) ->
    read_response host (ups (start + k)%nat) = inr t ->
    retry_result host ups start limit = inr t
    /\ retry_delays host ups start limit delay = backoff delay k
    /\ retry_attempts host ups start limit = S k.
Proof.
  induction k as [|k IH]; intros limit start delay t Hk Hfail Hok.
  - destruct limit as [|limit]; [lia|].
    rewrite Nat.add_0_r in Hok.
    apply (policy_success host ups start limit delay t Hok).
  - destruct limit as [|[|limit]]; [lia|lia|].
    pose proof (Hfail 0%nat ltac:(lia)) as H0.
    rewrite Nat.add_0_r in H0. unfold attempt_fails in H0.
    destruct (read_response host (ups start)) as [e|] eqn:R;
      [|discriminate H0].
    destruct (policy_failure host ups start limit delay e R)
      as (-> & -> & ->).
    destruct (IH (S limit) (S start) (delay * 2) t) as (-> & -> & ->).
    + lia.
    + intros i Hi. replace (S start + i)%nat with (start + S i)%nat by lia.
      apply Hfail. lia.
    + replace (S start + k)%nat with (start + S k)%nat by lia. exact Hok.
    + repeat split.
Qed.

(** Every attempt fails: the error of the last one is the result. *)
Lemma policy_all_fail (limit : nat) :
  forall (start : nat) (delay : N) (errs : nat -> JsError),
    (forall i, (i <= limit)%nat ->
               read_response host (ups (start + i)%nat) = inl (errs i)) ->
    retry_result host ups start (S limit) = inl (errs limit)
    /\ retry_delays host ups start (S limit) delay = backoff delay limit
    /\ retry_attempts host ups start (S limit) = S limit.
Proof.
  induction limit as [|limit IH]; intros start delay errs Hfail.
  - pose proof (Hfail 0%nat ltac:(lia)) as H0.
    rewrite Nat.add_0_r in H0.
    apply (policy_last_failure host ups start delay _ H0).
  - pose proof (Hfail 0%nat ltac:(lia)) as H0.
    rewrite Nat.add_0_r in H0.
    destruct (policy_failure host ups start limit delay _ H0)
      as (-> & -> & ->).
    destruct (IH (S start) (delay * 2) (fun i => errs (S i)))
      as (-> & -> & ->).
    + intros i Hi. replace (S start + i)%nat with (start + S i)%nat by lia.
      apply Hfail. lia.
    + repeat split.
Qed.

End PolicyFacts.

(** The delays and the number of attempts depend on which attempts fail,
    not on how they fail. *)
Lemma policy_uniform (host : Host) (ups1 ups2 : nat -> FetchOutcome)
    (limit : nat) :
  forall (s1 s2 : nat) (delay : N),
    (forall i, (i < limit)%nat ->
               attempt_fails host (ups1 (s1 + i)%nat)
               = attempt_fails host (ups2 (s2 + i)%nat)) ->
    retry_delays host ups1 s1 limit delay
    = retry_delays host ups2 s2 limit delay
    /\ retry_attempts host ups1 s1 limit = retry_attempts host ups2 s2 limit
    /\ succeeded (retry_result host ups1 s1 limit)
       = succeeded (retry_result host ups2 s2 limit).
Proof.
  induction limit as [|limit IH]; intros s1 s2 delay Hsame.
  - repeat split.
  - pose proof (Hsame 0%nat ltac:(lia)) as H0.
    rewrite !Nat.add_0_r in H0. unfold attempt_fails in H0.
    destruct (IH (S s1) (S s2) (delay * 2)) as (D & A & S').
    { intros i Hi.
      replace (S s1 + i)%nat with (s1 + S i)%nat by lia.
      replace (S s2 + i)%nat with (s2 + S i)%nat by lia.
      apply Hsame. lia. }
    simpl.
    destruct (read_response host (ups1 s1)), (read_response host (ups2 s2));
      try discriminate H0.
    + destruct limit; [repeat split|].
      rewrite D, A, S'. repeat split.
    + destruct limit; repeat split.
Qed.

Section ClientClaims.

Variable host : Host.

Lemma truthy_get_prop (v : JsVal) (k : jsstring) :
  truthy v = true ->
  get_prop v k = Some (default JUndefined (get_prop v k)).
Proof. destruct v; simpl; intros H; try discriminate H; reflexivity. Qed.

Lemma truthy_get_first (v : JsVal) :
  truthy v = true ->
  get_first v = Some (default JUndefined (get_first v)).
Proof. destruct v; simpl; intros H; try discriminate H; reflexivity. Qed.

(** The translation read from a parsed body comes from element 0 of
    [choices]. *)
Lemma read_translation_inr (data : JsVal) (t : jsstring) :
  read_translation host data = inr t ->
  exists choices len first message s,
    truthy data = true
    /\ get_prop data (js "choices") = Some choices
    /\ truthy choices = true
    /\ get_prop choices (js "length") = Some len
    /\ js_gt0 host len = true
    /\ get_first choices = Some first
    /\ get_prop first (js "message") = Some message
    /\ get_prop message (js "content") = Some (JStr s)
    /\ trim s <> [] /\ t = trim s.
Proof.
  unfold read_translation.
  set (choices := default JUndefined (get_prop data (js "choices"))).
  set (len := default JUndefined (get_prop choices (js "length"))).
  set (first := default JUndefined (get_first choices)).
  destruct (truthy data) eqn:Hd; cbn [andb]; [|intros E; discriminate E].
  destruct (truthy choices) eqn:Hc; cbn [andb]; [|intros E; discriminate E].
  destruct (js_gt0 host len) eqn:Hl; [|intros E; discriminate E].
  unfold read.
  destruct (get_prop first (js "message")) as [message|] eqn:Hm;
    [|intros E; discriminate E].
  destruct (get_prop message (js "content")) as [content|] eqn:Hk;
    [|intros E; discriminate E].
  destruct content as [| | | |s| |]; try (intros E; discriminate E).
  destruct (trim s) as [|c r] eqn:Ht; cbn [truthy negb];
    intros E; [discriminate E|].
  injection E as <-.
  exists choices, len, first, message, s.
  rewrite Ht. repeat split;
    auto using truthy_get_prop, truthy_get_first.
Qed.

Lemma read_response_accepts (r : FetchOutcome) (t : jsstring) :
  read_response host r = inr t <-> accepts host r t.
Proof.
  split.
  - destruct r as [m|ok status [m|data]]; simpl;
      try (intros E; discriminate E);
      (destruct ok; simpl; [|intros E; discriminate E]);
      [intros E; discriminate E|].
    intros H. apply read_translation_inr in H.
    destruct H as (choices & len & first & message & s & H).
    destruct H as (? & ? & ? & ? & ? & ? & ? & ? & ? & ->).
    econstructor; eassumption.
  - intros [status data choices len first message s
              Hd Hc Hct Hlen Hgt Hf Hm Hk Hne].
    simpl. unfold read_translation. rewrite Hc.
    cbn [default from_option id].
    rewrite Hd, Hct, Hlen. cbn [default from_option id].
    rewrite Hgt. cbn [andb].
    rewrite Hf. cbn [default from_option id]. unfold read. rewrite Hm, Hk.
    destruct (trim s); [contradiction|reflexivity].
Qed.

End ClientClaims.

(** ** processTranslation *)

Section PipelineFacts.

Variable host : Host.

Ltac observe :=
  simpl; rewrite ?sleeps_app, ?upstream_calls_app, ?cache_ops_app; simpl;
  rewrite ?app_nil_r; repeat split; try assumption; try reflexivity.

Lemma cache_read_spec (forceRefresh : bool) (key lang : jsstring)
    (w : World) :
  let out := cache_read forceRefresh key lang w in
  fst out = inr (cache_hit forceRefresh key lang (redisClient w))
  /\ redisClient (snd out) = redisClient w
  /\ upstream (snd out) = upstream w
  /\ fetches (snd out) = fetches w
  /\ clock (snd out) = clock w
  /\ sleeps (trace (snd out)) = sleeps (trace w)
  /\ upstream_calls (trace (snd out)) = upstream_calls (trace w)
  /\ cache_ops (trace (snd out))
     = cache_ops (trace w) ++ reads_of forceRefresh key (redisClient w).
Proof.
  unfold cache_read, cache_hit, reads_of. cbn zeta.
  destruct forceRefresh.
  { destruct (redisClient w) eqn:Hc; observe. }
  destruct (redisClient w) as [c|] eqn:Hc; [|observe].
  unfold try_catch, bind, redis_get, console_log, lift, ret, read.
  destruct (get_error c) as [e|] eqn:Hg; [observe|].
  destruct (store c !! key) as [[ttl json]|] eqn:Hs; [|observe].
  destruct json as [| |v]; [observe|observe|].
  cbn [fmap option_fmap option_map snd text_truthy JSON_parse].
  destruct (get_prop v (js "source_language")) as [sl|] eqn:Hsl;
    [|observe].
  destruct (get_prop v (js "translated_text")) as [tr|] eqn:Htr; observe.
Qed.

(** Once the [error] listener has run, the read finds nothing. *)
Lemma redis_on_error_miss (forceRefresh : bool) (key lang : jsstring)
    (w : World) :
  cache_hit forceRefresh key lang (redisClient (redis_on_error w)) = None.
Proof. now destruct forceRefresh. Qed.

Lemma cache_write_spec (key code t : jsstring) (w : World) :
  let out := cache_write key code t w in
  let entry := cache_entry code t (clock w) in
  fst out = inr tt
  /\ redisClient (snd out) = written key entry (redisClient w)
  /\ upstream (snd out) = upstream w
  /\ fetches (snd out) = fetches w
  /\ clock (snd out) = clock w
  /\ sleeps (trace (snd out)) = sleeps (trace w)
  /\ upstream_calls (trace (snd out)) = upstream_calls (trace w)
  /\ cache_ops (trace (snd out))
     = cache_ops (trace w) ++ writes_of key entry (redisClient w).
Proof.
  unfold cache_write, written, writes_of, cache_entry. cbn zeta.
  destruct (redisClient w) as [c|] eqn:Hc; [|observe].
  unfold try_catch, bind, Date_now, redis_setEx, console_log.
  destruct (setEx_error c) as [e|] eqn:He; observe.
Qed.

(** The steps of [processTranslation], one after the other. *)
Lemma processTranslation_steps (text lang : jsstring) (ip : JsVal)
    (forceRefresh : bool) (w : World) :
  let key := cacheKey text lang in
  let code := getSourceLanguage host text in
  processTranslation host text lang ip forceRefresh w
  = let (r1, w1) := cache_read forceRefresh key lang w in
    match r1 with
    | inl e => (inl e, w1)
    | inr (Some result) => (inr result, w1)
    | inr None =>
        let (r2, w2) :=
          callGroqApiWithBackoff host (systemInstruction code lang) text
                                 w1 in
        match r2 with
        | inl e => (inl (classify e), w2)
        | inr t =>
            let (r3, w3) := cache_write key code t w2 in
            match r3 with
            | inl e => (inl (classify e), w3)
            | inr _ => (inr (fresh_result host text lang forceRefresh t), w3)
            end
        end
    end.
Proof.
  cbn zeta. unfold processTranslation, bind, try_catch, ret, throw.
  destruct (cache_read _ _ _ w) as [[e|[r|]] w1]; try reflexivity.
  destruct (callGroqApiWithBackoff _ _ _ w1) as [[e|t] w2];
    try reflexivity.
  destruct (cache_write _ _ _ w2) as [[e|u] w3]; reflexivity.
Qed.

(** What [processTranslation] returns and does, in terms of the cache
    read, the retry policy and the cache write. *)
Lemma processTranslation_spec (text lang : jsstring) (ip : JsVal)
    (forceRefresh : bool) (w : World) :
  let key := cacheKey text lang in
  let code := getSourceLanguage host text in
  let request := groq_request host (systemInstruction code lang) text in
  let out := processTranslation host text lang ip forceRefresh w in
  let reads := reads_of forceRefresh key (redisClient w) in
  match cache_hit forceRefresh key lang (redisClient w) with
  | Some r =>
      out = (inr r, emit (EvRedisGet key) w)
  | None =>
      let limit := N.to_nat MAX_RETRIES in
      let delays :=
        retry_delays host (upstream w) (fetches w) limit BASE_DELAY in
      let attempts := retry_attempts host (upstream w) (fetches w) limit in
      sleeps (trace (snd out)) = sleeps (trace w) ++ delays
      /\ upstream_calls (trace (snd out))
         = upstream_calls (trace w) ++ repeat request attempts
      /\ fetches (snd out) = (fetches w + attempts)%nat
      /\ clock (snd out) = clock w + total delays
      /\ match retry_result host (upstream w) (fetches w) limit with
         | inr t =>
             let entry := cache_entry code t (clock w + total delays) in
             fst out = inr (fresh_result host text lang forceRefresh t)
             /\ cache_ops (trace (snd out))
                = cache_ops (trace w) ++ reads
                  ++ writes_of key entry (redisClient w)
             /\ redisClient (snd out) = written key entry (redisClient w)
         | inl e =>
             fst out = inl (classify e)
             /\ cache_ops (trace (snd out)) = cache_ops (trace w) ++ reads
             /\ redisClient (snd out) = redisClient w
         end
  end.
Proof.
  intros key code request out reads.
  assert (Hout : out = _) by apply processTranslation_steps.
  clearbody out. cbn zeta in Hout. fold key code in Hout.
  destruct (cache_read_spec forceRefresh key lang w)
    as (R1 & R2 & R3 & R4 & R5 & R6 & R7 & R8).
  destruct (cache_read forceRefresh key lang w) as [[e|hit] w1] eqn:CR;
    cbn [fst snd] in *; [discriminate R1|].
  injection R1 as ->.
  destruct (cache_hit forceRefresh key lang (redisClient w))
    as [r|] eqn:Hit.
  - (* the early return: the read was a [get] that answered *)
    subst out. f_equal.
    revert CR Hit. unfold cache_read, cache_hit.
    destruct forceRefresh; [discriminate|].
    destruct (redisClient w) as [c|]; [|discriminate].
    unfold try_catch, bind, redis_get, lift, ret, read.
    destruct (get_error c); [discriminate|].
    destruct (store c !! key) as [[ttl [| |v]]|]; try discriminate.
    cbn [fmap option_fmap option_map snd text_truthy JSON_parse].
    destruct (get_prop v (js "source_language")); [|discriminate].
    destruct (get_prop v (js "translated_text")); [|discriminate].
    intros [= _ <-] _. reflexivity.
  - unfold callGroqApiWithBackoff in Hout. fold request in Hout.
    pose proof (retry_loop_spec host request
                  (N.to_nat MAX_RETRIES) 0 BASE_DELAY w1 eq_refl)
      as [A B C D E F G H].
    rewrite R3, R4 in A, B, C, D, H. rewrite R6 in B. rewrite R7 in D.
    rewrite R8 in E. rewrite R2 in F. rewrite R5 in H.
    destruct (retry_loop host (N.to_nat MAX_RETRIES) _ 0 BASE_DELAY w1)
      as [[e|t] w2]; cbn [fst snd] in *; cbn zeta; rewrite <- A;
      cbn iota.
    + subst out. cbn [fst snd]. repeat split; assumption.
    + destruct (cache_write_spec key code t w2)
        as (W1 & W2 & W3 & W4 & W5 & W6 & W7 & W8).
      destruct (cache_write key code t w2) as [[e|[]] w3];
        cbn [fst snd] in *; [discriminate W1|].
      subst out. cbn [fst snd].
      rewrite W6, W7, W4, W5, W8, W2, B, D, C, H, E, F.
      rewrite <- app_assoc. repeat split.
Qed.

End PipelineFacts.

(** ** The claims about the upstream client *)

Section ClientTheorems.

Variable host : Host.

Lemma retry_attempts_pos (ups : nat -> FetchOutcome) (start limit : nat) :
  (1 <= retry_attempts host ups start (S limit))%nat.
Proof. simpl. destruct (read_response host (ups start)); lia. Qed.

(** What a call of the client returns and does, in terms of the retry
    policy. *)
Lemma callGroqApiWithBackoff_spec (systemPrompt userPrompt : jsstring)
    (w : World) :
  run_spec host (groq_request host systemPrompt userPrompt)
           (N.to_nat MAX_RETRIES) BASE_DELAY w
           (callGroqApiWithBackoff host systemPrompt userPrompt w).
Proof. apply retry_loop_spec. reflexivity. Qed.

Lemma schedule_app (tr tr' : list Event) :
  schedule (tr ++ tr') = schedule tr ++ schedule tr'.
Proof. apply omap_app. Qed.

(** The loop sends a request, and after a failure that is not the last
    one waits before it sends the next: requests and delays alternate. *)
Lemma retry_loop_schedule (request : FetchRequest) (limit : nat) :
  forall (attempt delay : N) (w : World),
    (N.to_nat attempt + S limit = N.to_nat MAX_RETRIES)%nat ->
    schedule (trace (snd (retry_loop host (S limit) request attempt delay w)))
    = schedule (trace w)
      ++ attempts_and_waits request delay
           (retry_attempts host (upstream w) (fetches w) (S limit) - 1).
Proof.
  induction limit as [|limit IH]; intros attempt delay w Hsum.
  - cbn [retry_loop]. rewrite attempt_once_eq.
    destruct (read_response host (upstream w (fetches w))) as [e|t] eqn:R.
    + rewrite on_failure_last
        by (unfold MAX_RETRIES in *; simpl in Hsum; lia).
      destruct (policy_last_failure host (upstream w) (fetches w) delay e R)
        as (_ & _ & ->).
      cbn [snd trace]. rewrite schedule_app. reflexivity.
    + destruct (policy_success host (upstream w) (fetches w) 0 delay t R)
        as (_ & _ & ->).
      cbn [snd trace]. rewrite schedule_app. reflexivity.
  - remember (S limit) as rest eqn:Hrest.
    cbn [retry_loop]. subst rest. rewrite attempt_once_eq.
    destruct (read_response host (upstream w (fetches w))) as [e|t] eqn:R.
    + rewrite on_failure_retry
        by (unfold MAX_RETRIES in *; simpl in Hsum; lia).
      destruct (policy_failure host (upstream w) (fetches w) limit delay e R)
        as (_ & _ & ->).
      rewrite IH by lia.
      cbn [redisClient upstream fetches clock trace].
      pose proof (retry_attempts_pos (upstream w) (S (fetches w)) limit)
        as Hpos.
      destruct (retry_attempts host (upstream w) (S (fetches w)) (S limit))
        as [|n]; [lia|].
      rewrite !schedule_app, <- !app_assoc.
      cbn [Nat.sub attempts_and_waits]. rewrite Nat.sub_0_r.
      reflexivity.
    + destruct (policy_success host (upstream w) (fetches w) (S limit)
                  delay t R) as (_ & _ & ->).
      cbn [snd trace]. rewrite schedule_app. reflexivity.
Qed.

(** The schedule of a call of the client. *)
Lemma callGroqApiWithBackoff_schedule (systemPrompt userPrompt : jsstring)
    (w : World) :
  schedule (trace (snd (callGroqApiWithBackoff host systemPrompt
                          userPrompt w)))
  = schedule (trace w)
    ++ attempts_and_waits (groq_request host systemPrompt userPrompt)
         BASE_DELAY
         (retry_attempts host (upstream w) (fetches w)
            (N.to_nat MAX_RETRIES) - 1).
Proof. apply (retry_loop_schedule _ 4). reflexivity. Qed.

(** C1.  The client sends at least one and at most five requests.  When
    the first [k < 5] attempts fail and the next one is accepted, the
    translation is returned after the delays 1000, 2000, ... doubling from
    [BASE_DELAY], one per failed attempt, each waited between the failed
    attempt and the next request.  When all five attempts fail, the error
    of the fifth attempt is what is thrown, after the delays 1000, 2000,
    4000 and 8000, each between two requests, and no delay follows the
    fifth request.  When attempts 1 to 4 fail and attempt 5 is accepted,
    the translation is returned, the delays requested are 1000, 2000, 4000
    and 8000, 15000 ms in all, and [processTranslation], unless it answers
    from the cache, returns the result built from that translation. *)
Theorem backoff_policy (systemPrompt userPrompt : jsstring) (w : World) :
  let out := callGroqApiWithBackoff host systemPrompt userPrompt w in
  let outcome i := upstream w (fetches w + i)%nat in
  let request := groq_request host systemPrompt userPrompt in
  (fetches w < fetches (snd out) <= fetches w + 5)%nat
  /\ (forall k t,
        (k < 5)%nat ->
        (forall i, (i < k)%nat -> attempt_fails host (outcome i) = true) ->
        read_response host (outcome k) = inr t ->
        fst out = inr t
        /\ fetches (snd out) = (fetches w + S k)%nat
        /\ sleeps (trace (snd out))
           = sleeps (trace w) ++ backoff BASE_DELAY k
        /\ schedule (trace (snd out))
           = schedule (trace w) ++ attempts_and_waits request BASE_DELAY k)
  /\ (forall errs : nat -> JsError,
        (forall i, (i <= 4)%nat ->
                   read_response host (outcome i) = inl (errs i)) ->
        fst out = inl (errs 4%nat)
        /\ fetches (snd out) = (fetches w + 5)%nat
        /\ sleeps (trace (snd out))
           = sleeps (trace w) ++ [1000; 2000; 4000; 8000]
        /\ schedule (trace (snd out))
           = schedule (trace w)
             ++ [ EvFetch request; EvSleep 1000;
                  EvFetch request; EvSleep 2000;
                  EvFetch request; EvSleep 4000;
                  EvFetch request; EvSleep 8000;
                  EvFetch request ])
  /\ (forall t,
        (forall i, (i < 4)%nat -> attempt_fails host (outcome i) = true) ->
        read_response host (outcome 4%nat) = inr t ->
        fst out = inr t
        /\ sleeps (trace (snd out))
           = sleeps (trace w) ++ [1000; 2000; 4000; 8000]
        /\ schedule (trace (snd out))
           = schedule (trace w)
             ++ [ EvFetch request; EvSleep 1000;
                  EvFetch request; EvSleep 2000;
                  EvFetch request; EvSleep 4000;
                  EvFetch request; EvSleep 8000;
                  EvFetch request ]
        /\ 15000 <= total [1000; 2000; 4000; 8000]
        /\ clock (snd out) = clock w + 15000
        /\ forall text lang ip forceRefresh,
            cache_hit forceRefresh (cacheKey text lang) lang
                      (redisClient w) = None ->
            fst (processTranslation host text lang ip forceRefresh w)
            = inr (fresh_result host text lang forceRefresh t)).
Proof.
  intros out outcome request.
  destruct (callGroqApiWithBackoff_spec systemPrompt userPrompt w)
    as [A B C _ _ _ _ H].
  pose proof (callGroqApiWithBackoff_schedule systemPrompt userPrompt w)
    as Sch.
  fold out in A, B, C, H, Sch. fold request in Sch.
  split; [|split; [|split]].
  - rewrite C.
    pose proof (retry_attempts_le host (upstream w) (N.to_nat MAX_RETRIES)
                  (fetches w)) as Hle.
    pose proof (retry_attempts_pos (upstream w) (fetches w) 4) as Hpos.
    change (N.to_nat MAX_RETRIES) with 5%nat in *. lia.
  - intros k t Hk Hfail Hok.
    destruct (policy_failures_then_success host (upstream w) k
                (N.to_nat MAX_RETRIES) (fetches w) BASE_DELAY t)
      as (P1 & P2 & P3); [exact Hk|exact Hfail|exact Hok|].
    rewrite A, B, C, Sch, P1, P2, P3.
    replace (S k - 1)%nat with k by lia. repeat split.
  - intros errs Hfail.
    destruct (policy_all_fail host (upstream w) 4 (fetches w) BASE_DELAY
                errs Hfail) as (P1 & P2 & P3).
    change (N.to_nat MAX_RETRIES) with 5%nat in *.
    rewrite A, B, C, Sch, P1, P2, P3. repeat split.
  - intros t Hfail Hok.
    destruct (policy_failures_then_success host (upstream w) 4
                (N.to_nat MAX_RETRIES) (fetches w) BASE_DELAY t)
      as (P1 & P2 & P3); [unfold MAX_RETRIES; simpl; lia|exact Hfail
                         |exact Hok|].
    rewrite A, B, H, Sch, P1, P2, P3. repeat split.
    + discriminate.
    + intros text lang ip forceRefresh Hmiss.
      pose proof (processTranslation_spec host text lang ip forceRefresh w)
        as S.
      cbn zeta in S. rewrite Hmiss, P1 in S.
      destruct S as (_ & _ & _ & _ & S & _). exact S.
Qed.

(** C5, as amended.  An attempt accepts a response exactly when the
    response is successful, its body parses and element 0 of a non-empty
    [choices] carries a string that is not empty once trimmed; the
    choices after the first are not looked at.  Two runs in which the same
    attempts fail, of whatever kinds the failures are, wait the same
    delays, send the same number of requests and both succeed or both
    fail.  An empty translation is retried like any other failure. *)
Theorem acceptance_and_uniform_retry :
  (forall r t, read_response host r = inr t <-> accepts host r t)
  /\ (forall systemPrompt userPrompt w1 w2,
        let out1 := callGroqApiWithBackoff host systemPrompt userPrompt w1 in
        let out2 := callGroqApiWithBackoff host systemPrompt userPrompt w2 in
        (forall i, (i < 5)%nat ->
                   attempt_fails host (upstream w1 (fetches w1 + i)%nat)
                   = attempt_fails host (upstream w2 (fetches w2 + i)%nat)) ->
        exists delays attempts,
          sleeps (trace (snd out1)) = sleeps (trace w1) ++ delays
          /\ sleeps (trace (snd out2)) = sleeps (trace w2) ++ delays
          /\ fetches (snd out1) = (fetches w1 + attempts)%nat
          /\ fetches (snd out2) = (fetches w2 + attempts)%nat
          /\ succeeded (fst out1) = succeeded (fst out2))
  /\ (forall systemPrompt userPrompt w t,
        let out := callGroqApiWithBackoff host systemPrompt userPrompt w in
        read_response host (upstream w (fetches w))
        = inl (Error (js "LLM returned empty translation text.")) ->
        read_response host (upstream w (S (fetches w))) = inr t ->
        fst out = inr t
        /\ sleeps (trace (snd out)) = sleeps (trace w) ++ [1000]).
Proof.
  split; [|split].
  - apply read_response_accepts.
  - intros systemPrompt userPrompt w1 w2 out1 out2 Hsame.
    destruct (callGroqApiWithBackoff_spec systemPrompt userPrompt w1)
      as [A1 B1 C1 _ _ _ _ _].
    destruct (callGroqApiWithBackoff_spec systemPrompt userPrompt w2)
      as [A2 B2 C2 _ _ _ _ _].
    fold out1 in A1, B1, C1. fold out2 in A2, B2, C2.
    destruct (policy_uniform host (upstream w1) (upstream w2)
                (N.to_nat MAX_RETRIES) (fetches w1) (fetches w2)
                BASE_DELAY Hsame) as (D & N' & S').
    eexists _, _. rewrite B1, B2, C1, C2, A1, A2, D, N', S'.
    repeat split.
  - intros systemPrompt userPrompt w t out Hempty Hok.
    destruct (callGroqApiWithBackoff_spec systemPrompt userPrompt w)
      as [A B _ _ _ _ _ _].
    fold out in A, B.
    destruct (policy_failures_then_success host (upstream w) 1
                (N.to_nat MAX_RETRIES) (fetches w) BASE_DELAY t)
      as (P1 & P2 & _).
    + unfold MAX_RETRIES. simpl. lia.
    + intros i Hi. replace i with 0%nat by lia.
      rewrite Nat.add_0_r. unfold attempt_fails. now rewrite Hempty.
    + replace (fetches w + 1)%nat with (S (fetches w)) by lia. exact Hok.
    + rewrite A, B, P1, P2. repeat split.
Qed.

End ClientTheorems.

(** ** The claims about the pipeline *)

Section PipelineTheorems.

Variable host : Host.

(** C3.  When the read finds under the key a text that parses to an
    entry, the result is "cached", its translation and source language
    are the fields of the entry, whatever the language detector says of
    the text, and its target language is the requested one.  The only
    effect is the [get]: no request is sent upstream and nothing is
    written. *)
Theorem cache_hit_returned (text lang : jsstring) (ip : JsVal) (w : World)
    (c : Redis) (ttl : N) (entry sl tr : JsVal) :
  redisClient w = Some c ->
  get_error c = None ->
  store c !! cacheKey text lang = Some (ttl, TextOf entry) ->
  get_prop entry (js "source_language") = Some sl ->
  get_prop entry (js "translated_text") = Some tr ->
  let out := processTranslation host text lang ip false w in
  out = (inr {| source_language := sl;
                target_language := lang;
                translated_text := tr;
                status := js "cached" |},
         emit (EvRedisGet (cacheKey text lang)) w)
  /\ upstream_calls (trace (snd out)) = upstream_calls (trace w)
  /\ fetches (snd out) = fetches w
  /\ cache_ops (trace (snd out))
     = cache_ops (trace w) ++ [EvRedisGet (cacheKey text lang)]
  /\ redisClient (snd out) = Some c.
Proof.
  intros Hc Hg Hs Hsl Htr out.
  pose proof (processTranslation_spec host text lang ip false w) as S.
  cbn zeta in S. fold out in S.
  unfold cache_hit in S. rewrite Hc, Hg, Hs in S.
  cbn [fmap option_fmap option_map snd] in S. rewrite Hsl, Htr in S.
  rewrite S. cbn [fst snd emit trace fetches redisClient].
  rewrite upstream_calls_app, cache_ops_app. simpl.
  rewrite app_nil_r. repeat split. exact Hc.
Qed.


(** C4.  The result of the pipeline is the same with an unreachable
    store, with a store whose reads reject, and with a reachable store
    that has no entry for the key; it does not depend on whether writes
    reject; and whenever the read gives no entry, an accepted upstream
    translation is returned as a result, "generated" without
    [forceRefresh]. *)
Theorem cache_failures_not_surfaced (text lang : jsstring) (ip : JsVal)
    (forceRefresh : bool) (w : World) :
  let key := cacheKey text lang in
  let run client :=
    fst (processTranslation host text lang ip forceRefresh
           (set_redisClient client w)) in
  let miss := Some (healthy_redis ∅) in
  run None = run miss
  /\ (forall c e, get_error c = Some e -> run (Some c) = run miss)
  /\ (forall c e,
        run (Some (with_setEx_error (Some e) c))
        = run (Some (with_setEx_error None c)))
  /\ (forall client t,
        cache_hit forceRefresh key lang client = None ->
        retry_result host (upstream w) (fetches w) (N.to_nat MAX_RETRIES)
        = inr t ->
        run client = inr (fresh_result host text lang forceRefresh t)
        /\ (forceRefresh = false ->
            status (fresh_result host text lang forceRefresh t)
            = js "generated")).
Proof.
  intros key run miss.
  assert (Hrun : forall client,
             cache_hit forceRefresh key lang client = None ->
             run client
             = match retry_result host (upstream w) (fetches w)
                       (N.to_nat MAX_RETRIES) with
               | inr t => inr (fresh_result host text lang forceRefresh t)
               | inl e => inl (classify e)
               end).
  { intros client Hmiss. unfold run.
    pose proof (processTranslation_spec host text lang ip forceRefresh
                  (set_redisClient client w)) as S.
    cbn zeta in S. cbn [set_redisClient redisClient upstream fetches] in S.
    fold key in S. rewrite Hmiss in S.
    destruct S as (_ & _ & _ & _ & S).
    destruct (retry_result host (upstream w) (fetches w)
                (N.to_nat MAX_RETRIES)); apply S. }
  assert (Hnone : cache_hit forceRefresh key lang None = None)
    by (now destruct forceRefresh).
  assert (Hmiss : cache_hit forceRefresh key lang miss = None)
    by (now destruct forceRefresh).
  split; [|split; [|split]].
  - now rewrite (Hrun None Hnone), (Hrun miss Hmiss).
  - intros c e He.
    rewrite (Hrun miss Hmiss). apply Hrun.
    unfold cache_hit. rewrite He. now destruct forceRefresh.
  - intros c e. unfold run.
    pose proof (processTranslation_spec host text lang ip forceRefresh
                  (set_redisClient (Some (with_setEx_error (Some e) c)) w))
      as S1.
    pose proof (processTranslation_spec host text lang ip forceRefresh
                  (set_redisClient (Some (with_setEx_error None c)) w))
      as S2.
    cbn zeta in S1, S2.
    cbn [set_redisClient redisClient upstream fetches] in S1, S2.
    fold key in S1, S2.
    change (cache_hit forceRefresh key lang
              (Some (with_setEx_error (Some e) c)))
      with (cache_hit forceRefresh key lang (Some c)) in S1.
    change (cache_hit forceRefresh key lang
              (Some (with_setEx_error None c)))
      with (cache_hit forceRefresh key lang (Some c)) in S2.
    destruct (cache_hit forceRefresh key lang (Some c)).
    + now rewrite S1, S2.
    + destruct S1 as (_ & _ & _ & _ & S1).
      destruct S2 as (_ & _ & _ & _ & S2).
      destruct (retry_result host (upstream w) (fetches w)
                  (N.to_nat MAX_RETRIES));
        destruct S1 as (-> & _); destruct S2 as (-> & _); reflexivity.
  - intros client t Hm Hok. rewrite (Hrun client Hm), Hok.
    split; [reflexivity|]. now intros ->.
Qed.

(** C6, as amended.  The key is injective on validated pairs: a validated
    target language holds letters, white space and hyphens only, so the
    last bar of a key separates the text from the language, also when the
    text holds a bar.  Hence, in a store that keeps distinct keys apart, an
    entry written for one validated pair is never what a read for another
    validated pair finds, and a call of the pipeline for one pair does not
    change what the cache read answers for another pair.  Keys collide only
    when the language is not a validated one. *)
Theorem cacheKey_injective_on_validated :
  (forall t l t' l',
      validated t l -> validated t' l' ->
      cacheKey t l = cacheKey t' l' -> t = t' /\ l = l')
  /\ (forall t l t' l' (entries : gmap jsstring (N * JsonText)) v,
        validated t l -> validated t' l' -> (t, l) <> (t', l') ->
        <[cacheKey t' l' := v]> entries !! cacheKey t l
        = entries !! cacheKey t l)
  /\ (forall t l t' l' ip forceRefresh w,
        validated t l -> validated t' l' -> (t, l) <> (t', l') ->
        let after :=
          snd (processTranslation host t' l' ip forceRefresh w) in
        cache_hit false (cacheKey t l) l (redisClient after)
        = cache_hit false (cacheKey t l) l (redisClient w))
  /\ (cacheKey (js "a|b") (js "c") = cacheKey (js "a") (js "b|c")
      /\ validated (js "a|b") (js "c")
      /\ forall t, ~ validated t (js "b|c")).
Proof.
  assert (Hkeys : forall t l t' l',
             validated t l -> validated t' l' -> (t, l) <> (t', l') ->
             cacheKey t' l' <> cacheKey t l).
  { intros t l t' l' V V' Hne E. apply Hne.
    destruct (cacheKey_inj t' l' t l) as [-> ->];
      [eapply validated_lang_format; eassumption ..|exact E|reflexivity]. }
  split; [|split; [|split]].
  - intros t l t' l' V V'.
    apply cacheKey_inj; eapply validated_lang_format; eassumption.
  - intros t l t' l' entries v V V' Hne.
    apply lookup_insert_ne. now apply Hkeys.
  - intros t l t' l' ip forceRefresh w V V' Hne after.
    pose proof (processTranslation_spec host t' l' ip forceRefresh w) as S.
    cbn zeta in S. fold after in S.
    destruct (cache_hit forceRefresh (cacheKey t' l') l' (redisClient w)).
    + unfold after. now rewrite S.
    + destruct S as (_ & _ & _ & _ & S).
      destruct (retry_result host (upstream w) (fetches w)
                  (N.to_nat MAX_RETRIES));
        destruct S as (_ & _ & ->); [reflexivity|].
      unfold written. destruct (redisClient w) as [c|]; [|reflexivity].
      destruct (setEx_error c); [reflexivity|].
      unfold cache_hit. cbn [get_error store].
      rewrite lookup_insert_ne by now apply Hkeys. reflexivity.
  - split; [reflexivity|split].
    + exists (JObj [ (js "text", JStr (js "a|b"));
                     (js "target_lang", JStr (js "c")) ]).
      vm_compute. reflexivity.
    + intros t V. apply validated_lang_format in V.
      vm_compute in V. discriminate V.
Qed.

End PipelineTheorems.

(** ** The claims about the routes *)

Section RouteTheorems.

Variable host : Host.

(** C8.  Without an API key the handlers of [/api/translate] and
    [/api/retranslate] pass the error "API key not configured", of status
    500, to [next] and leave the world as it is: the body is not
    validated, Redis is not read or written and no request is sent
    upstream.  The error middleware answers that error with HTTP 500. *)
Theorem missing_api_key (req : Request) (w : World) :
  API_KEY host = [] ->
  let configurationError :=
    TranslationError (js "API key not configured") 500 None in
  translate_handler host req w = (Next configurationError, w)
  /\ retranslate_handler host req w = (Next configurationError, w)
  /\ errorMiddleware configurationError
     = ResJson 500
         (JObj [ (js "error", JStr (js "API key not configured"));
                 (js "details", JNull);
                 (js "status_code", JNum 500) ]).
Proof.
  intros Hkey. unfold translate_handler, retranslate_handler, respond.
  rewrite Hkey. repeat split.
Qed.

(** C9, as amended.  The health handler always answers 200 with the
    fields [status], [redis], [groq_api], [max_text_length], [rate_limit]
    and [timestamp], in this order: [redis] is "connected" when a client
    is present and answers the ping and "disconnected" otherwise, and
    [groq_api] is "configured" when the API key is not empty and
    "not_configured" otherwise. *)
Theorem health_reply (w : World) :
  exists redisStatus groqApi,
    fst (health_handler host w)
    = ResJson 200
        (JObj [ (js "status", JStr (js "healthy"));
                (js "redis", JStr redisStatus);
                (js "groq_api", JStr groqApi);
                (js "max_text_length", JNum 2000);
                (js "rate_limit", JStr (js "1 second(s)"));
                (js "timestamp", JNum (Z.of_N (clock w))) ])
    /\ redisStatus
       = match redisClient w with
         | Some c => match ping_error c with
                     | None => js "connected"
                     | Some _ => js "disconnected"
                     end
         | None => js "disconnected"
         end
    /\ groqApi = match API_KEY host with
                 | [] => js "not_configured"
                 | _ => js "configured"
                 end.
Proof.
  unfold health_handler.
  destruct (redisClient w) as [c|].
  - unfold redis_ping. destruct (ping_error c);
      eexists _, _; cbn [fst]; (split; [reflexivity|split; [reflexivity|]]);
      now destruct (API_KEY host).
  - eexists _, _; cbn [fst]; (split; [reflexivity|split; [reflexivity|]]);
      now destruct (API_KEY host).
Qed.

End RouteTheorems.

(** * Instances and counterexamples *)

(** C1 on the flaky upstream: four failures of four kinds, then a
    completion; each delay falls between two requests. *)
Lemma backoff_policy_flaky :
  let out :=
    callGroqApiWithBackoff sample_host [] (js "Hello world")
                           (world_with None flaky_upstream) in
  let request := groq_request sample_host [] (js "Hello world") in
  fst out = inr (js "Hola mundo")
  /\ sleeps (trace (snd out)) = [1000; 2000; 4000; 8000]
  /\ schedule (trace (snd out))
     = [ EvFetch request; EvSleep 1000; EvFetch request; EvSleep 2000;
         EvFetch request; EvSleep 4000; EvFetch request; EvSleep 8000;
         EvFetch request ]
  /\ clock (snd out) = 15000.
Proof.
  intros out request.
  destruct (backoff_policy sample_host [] (js "Hello world")
              (world_with None flaky_upstream))
    as (_ & _ & _ & H).
  destruct (H (js "Hola mundo")) as (A & B & S & _ & C & _).
  - intros i Hi.
    destruct i as [|[|[|[|i]]]]; [reflexivity ..|exfalso; lia].
  - reflexivity.
  - split; [exact A|split; [exact B|split; [exact S|exact C]]].
Defined.

(** C5 as stated fails: the second choice of this response has a content
    that is not empty, and the attempt rejects the response. *)
Lemma second_choice_ignored :
  has_nonempty_choice (completion [js "  "; js "Hola mundo"])
  /\ read_response sample_host (completion [js "  "; js "Hola mundo"])
     = inl (Error (js "LLM returned empty translation text.")).
Proof.
  split; [|reflexivity].
  unfold has_nonempty_choice, completion.
  eexists true, 200, _, _,
    (JObj [(js "message", JObj [(js "content", JStr (js "Hola mundo"))])]),
    _, (js "Hola mundo").
  split; [reflexivity|]. split; [reflexivity|].
  split; [right; left; reflexivity|].
  split; [reflexivity|]. split; [reflexivity|]. discriminate.
Qed.

(** C5, as amended, on two runs that fail in different ways. *)
Lemma acceptance_and_uniform_retry_sample :
  let w1 := world_with None flaky_upstream in
  let w2 := world_with None (fun i => if (i <? 4)%nat then http_failure 429
                                      else steady_upstream i) in
  accepts sample_host (completion [js " Hola mundo "]) (js "Hola mundo")
  /\ sleeps (trace (snd (callGroqApiWithBackoff sample_host [] [] w1)))
     = sleeps (trace (snd (callGroqApiWithBackoff sample_host [] [] w2)))
  /\ fetches (snd (callGroqApiWithBackoff sample_host [] [] w1))
     = fetches (snd (callGroqApiWithBackoff sample_host [] [] w2)).
Proof.
  intros w1 w2.
  destruct (acceptance_and_uniform_retry sample_host) as (A & U & _).
  split.
  - apply (A (completion [js " Hola mundo "]) (js "Hola mundo")).
    reflexivity.
  - destruct (U [] [] w1 w2) as (delays & attempts & S1 & S2 & F1 & F2 & _).
    + intros i Hi.
      destruct i as [|[|[|[|[|i]]]]]; [reflexivity ..|exfalso; lia].
    + split; [now rewrite S1, S2|now rewrite F1, F2].
Defined.


(** C2 as stated fails also with a client whose writes reject: the store
    holds no entry afterwards. *)
Lemma force_refresh_with_rejected_write :
  let out :=
    processTranslation sample_host (js "Hello world") (js "Spanish")
                       JUndefined true
                       (world_with (Some (broken_redis (Error (js "READONLY"))))
                                   steady_upstream) in
  succeeded (fst out) = true
  /\ exists c, redisClient (snd out) = Some c
               /\ store c !! cacheKey (js "Hello world") (js "Spanish") = None.
Proof.
  split; [reflexivity|]. eexists. split; [reflexivity|].
  apply lookup_empty.
Qed.


(** C3 on a store that holds the entry of the request. *)
Lemma cache_hit_returned_sample :
  let w := world_with (Some warm_redis) dead_upstream in
  let out :=
    processTranslation sample_host (js "Hello world") (js "Spanish")
                       JUndefined false w in
  fst out = inr {| source_language := JStr (js "FR");
                   target_language := js "Spanish";
                   translated_text := JStr (js "Hola mundo");
                   status := js "cached" |}
  /\ upstream_calls (trace (snd out)) = []
  /\ cache_ops (trace (snd out))
     = [EvRedisGet (cacheKey (js "Hello world") (js "Spanish"))].
Proof.
  intros w out.
  destruct (cache_hit_returned sample_host (js "Hello world") (js "Spanish")
              JUndefined w warm_redis CACHE_EXPIRY_SECONDS cached_hola
              (JStr (js "FR")) (JStr (js "Hola mundo")))
    as (E & U & _ & O & _).
  - reflexivity.
  - reflexivity.
  - apply lookup_singleton_eq.
  - reflexivity.
  - reflexivity.
  - fold out in E, U, O. rewrite E at 1. split; [reflexivity|].
    split; [exact U|exact O].
Defined.

(** C4 on an unreachable store and on a store that rejects every
    command. *)
Lemma cache_failures_not_surfaced_sample :
  let run client :=
    fst (processTranslation sample_host (js "Hello world") (js "Spanish")
           JUndefined false (world_with client steady_upstream)) in
  let generated :=
    inr {| source_language := JStr (js "EN");
           target_language := js "Spanish";
           translated_text := JStr (js "Hola mundo");
           status := js "generated" |} in
  run None = generated
  /\ run (Some (broken_redis (Error (js "ECONNREFUSED")))) = generated.
Proof.
  intros run generated.
  destruct (cache_failures_not_surfaced sample_host (js "Hello world")
              (js "Spanish") JUndefined false
              (world_with None steady_upstream)) as (_ & _ & _ & H).
  split.
  - apply (H None (js "Hola mundo")); reflexivity.
  - apply (H (Some (broken_redis (Error (js "ECONNREFUSED"))))
             (js "Hola mundo")); reflexivity.
Defined.

(** C6 as stated fails: no two distinct validated pairs share a key. *)
Lemma cacheKey_collision_impossible :
  ~ exists t l t' l',
      validated t l /\ validated t' l' /\ (t, l) <> (t', l')
      /\ cacheKey t l = cacheKey t' l'.
Proof.
  intros (t & l & t' & l' & V & V' & Hne & E). apply Hne.
  destruct (cacheKey_inj t l t' l') as [-> ->];
    [eapply validated_lang_format; eassumption ..|exact E|reflexivity].
Qed.

(** C6, as amended, on a text that holds a bar: the entry written for
    the text "a" and the language "b-c" is not what a read for the text
    "a|b" and the language "c" finds. *)
Lemma cacheKey_injective_sample :
  <[cacheKey (js "a") (js "b-c") := (CACHE_EXPIRY_SECONDS, TextEmpty)]>
    (∅ : gmap jsstring (N * JsonText))
  !! cacheKey (js "a|b") (js "c") = None.
Proof.
  destruct (cacheKey_injective_on_validated sample_host) as (_ & W & _).
  rewrite (W (js "a|b") (js "c") (js "a") (js "b-c")).
  - apply lookup_empty.
  - exists (JObj [ (js "text", JStr (js "a|b"));
                   (js "target_lang", JStr (js "c")) ]).
    vm_compute. reflexivity.
  - exists (JObj [ (js "text", JStr (js "a"));
                   (js "target_lang", JStr (js "b-c")) ]).
    vm_compute. reflexivity.
  - intros E. discriminate E.
Defined.

(** C7 on the bodies of 2000 and of 2001 characters. *)
Lemma text_length_boundary_sample :
  let body n :=
    JObj [ (js "text", JStr (text_of_length n));
           (js "target_lang", JStr (js "Spanish")) ] in
  validateInput (body 2000%nat) <> inl (TextTooLong 2000)
  /\ validateInput (body 2001%nat)
     = inl (TranslationError (js "Text too long. Maximum 2000 characters.")
                             400 (Some (js "Text length: 2001 characters"))).
Proof.
  intros body.
  destruct text_length_boundary as (A & B & _).
  split.
  - apply (A (body 2000%nat) (text_of_length 2000)).
    + reflexivity.
    + exists (text_of_length 2000). split; vm_compute; reflexivity.
    + vm_compute; reflexivity.
  - destruct (B (body 2001%nat) (text_of_length 2001)) as (_ & H).
    + reflexivity.
    + exists (text_of_length 2001). split; vm_compute; reflexivity.
    + vm_compute; reflexivity.
    + apply (H (js "Spanish")).
      exists (js "Spanish"). split; reflexivity.
Defined.

(** C10 on a body whose text is white space. *)
Lemma empty_text_rejected_sample :
  validateInput (JObj [ (js "text", JStr (js "   "));
                        (js "target_lang", JStr (js "Spanish")) ])
  = inl EmptyText.
Proof.
  destruct empty_text_rejected as (A & _).
  destruct (A (JObj [ (js "text", JStr (js "   "));
                      (js "target_lang", JStr (js "Spanish")) ]))
    as (_ & _ & H).
  - reflexivity.
  - exists (js "   "). split; reflexivity.
  - apply (H (js "Spanish")). exists (js "Spanish"). split; reflexivity.
Defined.

(** C8 on the host without a key. *)
Lemma missing_api_key_sample :
  translate_handler keyless_host (sample_request hello_body)
                    (world_with (Some warm_redis) steady_upstream)
  = (Next (TranslationError (js "API key not configured") 500 None),
     world_with (Some warm_redis) steady_upstream).
Proof.
  destruct (missing_api_key keyless_host (sample_request hello_body)
              (world_with (Some warm_redis) steady_upstream) eq_refl)
    as (H & _).
  exact H.
Defined.

(** C9 as stated fails: the body of the health reply has no field named
    [cache_backend_status] or [upstream_configured]. *)
Lemma health_reply_field_names :
  exists props,
    fst (health_handler sample_host (world_with None steady_upstream))
    = ResJson 200 (JObj props)
    /\ List.map fst props
       = [ js "status"; js "redis"; js "groq_api"; js "max_text_length";
           js "rate_limit"; js "timestamp" ]
    /\ ~ In (js "cache_backend_status") (List.map fst props)
    /\ ~ In (js "upstream_configured") (List.map fst props).
Proof.
  eexists. split; [reflexivity|]. split; [reflexivity|].
  split; vm_compute; intuition discriminate.
Qed.

(** * Further properties *)

(** ** Trimming *)

Module TrimFacts.

Lemma trimStart_app_one (a : jsstring) (c : N) :
  trimStart (a ++ [c])
  = match trimStart a with
    | [] => trimStart [c]
    | x => x ++ [c]
    end.
Proof.
  induction a as [|d a IH]; [reflexivity|].
  simpl. destruct (is_ws d); [exact IH|reflexivity].
Qed.

(** [trimEnd], from the left. *)
Lemma trimEnd_cons (c : N) (s : jsstring) :
  trimEnd (c :: s)
  = match trimEnd s with
    | [] => if is_ws c then [] else [c]
    | x => c :: x
    end.
Proof.
  unfold trimEnd. simpl rev. rewrite trimStart_app_one.
  destruct (trimStart (rev s)) as [|d r] eqn:E.
  - simpl. now destruct (is_ws c).
  - rewrite rev_app_distr. simpl.
    destruct (rev r ++ [d]) eqn:E'; [|reflexivity].
    destruct (rev r); discriminate E'.
Qed.

Lemma trimStart_idem (s : jsstring) : trimStart (trimStart s) = trimStart s.
Proof.
  induction s as [|c s IH]; [reflexivity|].
  simpl. destruct (is_ws c) eqn:E; [exact IH|]. simpl. now rewrite E.
Qed.

Lemma trimEnd_idem (s : jsstring) : trimEnd (trimEnd s) = trimEnd s.
Proof.
  unfold trimEnd. now rewrite rev_involutive, trimStart_idem.
Qed.

(** A string that does not start with white space still does not once its
    end is trimmed. *)
Lemma trimStart_trimEnd (s : jsstring) :
  trimStart s = s -> trimStart (trimEnd s) = trimEnd s.
Proof.
  destruct s as [|c s]; [reflexivity|].
  simpl. destruct (is_ws c) eqn:E.
  - intros H. exfalso.
    assert (L : (length (trimStart s) <= length s)%nat).
    { clear. induction s as [|d s IH]; simpl; [lia|].
      destruct (is_ws d); simpl; lia. }
    rewrite H in L. simpl in L. lia.
  - intros _. rewrite trimEnd_cons.
    destruct (trimEnd s); rewrite ?E; simpl; now rewrite E.
Qed.

Lemma trim_idem (s : jsstring) : trim (trim s) = trim s.
Proof.
  unfold trim.
  rewrite (trimStart_trimEnd (trimStart s) (trimStart_idem s)).
  apply trimEnd_idem.
Qed.

Lemma length_trimStart (s : jsstring) : (length (trimStart s) <= length s)%nat.
Proof.
  induction s as [|d s IH]; simpl; [lia|].
  destruct (is_ws d); simpl; lia.
Qed.

Lemma length_trim (s : jsstring) : (length (trim s) <= length s)%nat.
Proof.
  unfold trim, trimEnd. rewrite length_rev.
  etransitivity; [apply length_trimStart|].
  rewrite length_rev. apply length_trimStart.
Qed.

(** A trimmed string that is not empty starts and ends with a character
    that is not white space. *)
Lemma trim_head (s : jsstring) (c : N) (r : jsstring) :
  trim s = c :: r -> is_ws c = false.
Proof.
  intros H.
  assert (T : trimStart (trim s) = trim s).
  { unfold trim. apply trimStart_trimEnd, trimStart_idem. }
  rewrite H in T. simpl in T. destruct (is_ws c) eqn:E; [|reflexivity].
  exfalso. pose proof (length_trimStart r) as L. rewrite T in L.
  simpl in L. lia.
Qed.

Lemma trim_last (s r : jsstring) (c : N) :
  trim s = r ++ [c] -> is_ws c = false.
Proof.
  intros H.
  assert (T : trimEnd (trim s) = trim s) by apply trimEnd_idem.
  rewrite H in T. unfold trimEnd in T. rewrite rev_app_distr in T.
  simpl in T. destruct (is_ws c) eqn:E; [|reflexivity].
  exfalso. apply (f_equal (@length N)) in T.
  rewrite length_rev, length_app in T. simpl in T.
  pose proof (length_trimStart (rev r)) as L. rewrite length_rev in L. lia.
Qed.

End TrimFacts.
Import TrimFacts.

(** ** Decimal numerals *)

Module DecimalFacts.

Local Abbreviation step := (fun acc c => 10 * acc + (c - 48)).

Lemma fold_digits_pos (d : Decimal.uint) (acc : positive) :
  fold_left step (js (NilEmpty.string_of_uint d)) (Npos acc)
  = Npos (Pos.of_uint_acc d acc).
Proof.
  revert acc. induction d; intros acc; simpl; [reflexivity|..];
    match goal with
    | |- fold_left _ _ ?a = _ =>
        match goal with
        | |- _ = N.pos (Pos.of_uint_acc _ ?b) =>
            replace a with (Npos b) by lia; apply IHd
        end
    end.
Qed.

Lemma fold_digits_zero (d : Decimal.uint) :
  fold_left step (js (NilEmpty.string_of_uint d)) 0 = Pos.of_uint d.
Proof.
  induction d; simpl; [reflexivity|exact IHd|..];
    match goal with
    | |- _ = N.pos (Pos.of_uint_acc _ ?b) =>
        change (fold_left step (js (NilEmpty.string_of_uint d)) (Npos b)
                = Npos (Pos.of_uint_acc d b));
        apply fold_digits_pos
    end.
Qed.

Lemma parseInt_string_of_uint (d : Decimal.uint) :
  parseInt_digits (js (NilZero.string_of_uint d)) = N.of_uint d.
Proof.
  unfold parseInt_digits, N.of_uint.
  destruct d; try apply fold_digits_zero. reflexivity.
Qed.

(** [parseInt] reads back what a template literal prints. *)
Lemma parseInt_decimal (n : N) : parseInt_digits (decimal n) = n.
Proof.
  unfold decimal. rewrite parseInt_string_of_uint.
  apply DecimalN.Unsigned.of_to.
Qed.

Lemma digits_string_of_uint (d : Decimal.uint) :
  forallb is_digit (js (NilEmpty.string_of_uint d)) = true.
Proof. induction d; simpl; auto. Qed.

Lemma decimal_digits (n : N) :
  forallb is_digit (decimal n) = true /\ decimal n <> [].
Proof.
  unfold decimal. generalize (N.to_uint n). intros d. split.
  - destruct d; [reflexivity|..];
      match goal with
      | |- forallb _ (js (NilZero.string_of_uint ?x)) = _ =>
          exact (digits_string_of_uint x)
      end.
  - destruct d; discriminate.
Qed.

Lemma leading_digits_all (ds : jsstring) :
  forallb is_digit ds = true -> leading_digits ds = ds.
Proof.
  induction ds as [|c ds IH]; [reflexivity|].
  simpl. destruct (is_digit c); [|discriminate].
  intros H. now rewrite IH.
Qed.

End DecimalFacts.
Import DecimalFacts.

(** ** More on validateInput *)

Section ValidateInputMore.

Implicit Types (data : JsVal) (text lang : jsstring).

Lemma trims_to_trimmed (v : JsVal) (s : jsstring) :
  trims_to v s -> trim s = s.
Proof. intros (raw & _ & <-). apply trim_idem. Qed.

Lemma validateInput_complete data text lang :
  truthy data = true ->
  trims_to (request_field data "text") text ->
  trims_to (request_field data "target_lang") lang ->
  (1 <= length text <= 2000)%nat ->
  lang_format lang = true ->
  validateInput data = inr (text, lang).
Proof.
  intros Hd Ht Hl [Hlo Hhi] Hf.
  rewrite (validateInput_on_strings data text lang Hd Ht Hl).
  replace (MAX_TEXT_LENGTH <? N.of_nat (length text)) with false
    by (symmetry; apply N.ltb_ge; unfold MAX_TEXT_LENGTH; lia).
  destruct text as [|c text]; [simpl in Hlo; lia|].
  destruct lang as [|d lang]; [discriminate Hf|].
  cbn [truthy negb]. now rewrite Hf.
Qed.

(** The function accepts a body exactly when the body is truthy, its two
    fields are strings (or falsy), the trimmed text has 1 to 2000 code
    units and the trimmed language is a non-empty run of letters, white
    space and hyphens; what it returns is the two trimmed fields. *)
Theorem validateInput_accepts_iff data text lang :
  validateInput data = inr (text, lang)
  <-> truthy data = true
      /\ trims_to (request_field data "text") text
      /\ trims_to (request_field data "target_lang") lang
      /\ (1 <= length text <= 2000)%nat
      /\ lang_format lang = true.
Proof.
  split.
  - intros H. apply validateInput_sound in H.
    destruct H as (Hd & Ht & Hl & Hlen & Hne & Hf).
    repeat split; try assumption.
    destruct text; [contradiction|simpl; lia].
  - intros (Hd & Ht & Hl & Hlen & Hf).
    now apply validateInput_complete.
Qed.

(** A validated pair is in normal form: neither field starts or ends with
    white space, and the body made of the two fields validates to the same
    pair again. *)
Theorem validated_pair_normal text lang :
  validated text lang ->
  trim text = text /\ trim lang = lang
  /\ validateInput (JObj [ (js "text", JStr text);
                           (js "target_lang", JStr lang) ])
     = inr (text, lang).
Proof.
  intros [data H]. apply validateInput_sound in H.
  destruct H as (_ & Ht & Hl & Hlen & Hne & Hf).
  pose proof (trims_to_trimmed _ _ Ht) as Et.
  pose proof (trims_to_trimmed _ _ Hl) as El.
  split; [exact Et|split; [exact El|]].
  apply validateInput_complete.
  - reflexivity.
  - exists text. split; [|exact Et].
    unfold request_field. simpl. unfold js_or.
    destruct text; [contradiction|reflexivity].
  - exists lang. split; [|exact El].
    unfold request_field. simpl. unfold js_or.
    destruct lang; [discriminate Hf|reflexivity].
  - destruct text; [contradiction|simpl in *; lia].
  - exact Hf.
Qed.

Lemma lang_format_false (lang : jsstring) (c : N) :
  c ∈ lang -> lang_char c = false -> lang_format lang = false.
Proof.
  intros Hin Hc. destruct (lang_format lang) eqn:E; [|reflexivity].
  rewrite (lang_format_chars lang c E Hin) in Hc. discriminate Hc.
Qed.

(** The rules on the target language, for a body whose text passes: an
    empty language and a language with a character that is not a letter,
    white space or a hyphen (a digit, say) are both rejected with their own
    400 error. *)
Theorem target_lang_rules data text lang :
  truthy data = true ->
  trims_to (request_field data "text") text ->
  trims_to (request_field data "target_lang") lang ->
  (1 <= length text <= 2000)%nat ->
  (lang = [] -> validateInput data = inl EmptyTargetLang)
  /\ (forall c, c ∈ lang -> lang_char c = false ->
                validateInput data = inl InvalidTargetLangFormat)
  /\ (forall c, c ∈ lang -> is_digit c = true ->
                validateInput data = inl InvalidTargetLangFormat).
Proof.
  intros Hd Ht Hl [Hlo Hhi].
  rewrite (validateInput_on_strings data text lang Hd Ht Hl).
  replace (MAX_TEXT_LENGTH <? N.of_nat (length text)) with false
    by (symmetry; apply N.ltb_ge; unfold MAX_TEXT_LENGTH; lia).
  destruct text as [|c0 text]; [simpl in Hlo; lia|].
  cbn [truthy negb].
  assert (Hbad : forall c, c ∈ lang -> lang_char c = false ->
                           (if negb (truthy (JStr lang))
                            then inl EmptyTargetLang
                            else if negb (lang_format lang)
                                 then inl InvalidTargetLangFormat
                                 else inr (c0 :: text, lang))
                           = inl InvalidTargetLangFormat).
  { intros c Hin Hc. rewrite (lang_format_false lang c Hin Hc).
    destruct lang; [inversion Hin|reflexivity]. }
  split; [|split].
  - intros ->. reflexivity.
  - exact Hbad.
  - intros c Hin Hdig. apply (Hbad c Hin).
    unfold lang_char, is_upper, is_lower, is_ws.
    unfold is_digit in Hdig. apply andb_true_iff in Hdig.
    destruct Hdig as [H1 H2]. apply N.leb_le in H1. apply N.leb_le in H2.
    repeat match goal with
           | |- context [?a <=? ?b] =>
               let E := fresh in destruct (N.leb_spec a b) as [E|E];
                                 try (exfalso; lia)
           | |- context [?a =? ?b] =>
               let E := fresh in destruct (N.eqb_spec a b) as [E|E];
                                 try (exfalso; lia)
           end; reflexivity.
Qed.

(** Whatever the body, an error of the function is a [TypeError] or a
    [TranslationError] of status 400; a falsy body gives "Request must be
    JSON"; and a truthy body whose two fields are strings or falsy never
    gives a [TypeError]. *)
Theorem validateInput_error_kinds data :
  (forall e, validateInput data = inl e ->
             (exists m, e = TypeError m)
             \/ (exists m d, e = TranslationError m 400 d))
  /\ (truthy data = false ->
      validateInput data
      = inl (TranslationError (js "Request must be JSON") 400 None))
  /\ (forall text lang,
        truthy data = true ->
        trims_to (request_field data "text") text ->
        trims_to (request_field data "target_lang") lang ->
        forall m, validateInput data <> inl (TypeError m)).
Proof.
  split; [|split].
  - intros e. unfold validateInput.
    destruct (truthy data); cbn [negb].
    2: { intros [= <-]. right. eexists _, _. reflexivity. }
    destruct (or_empty_trim _ (request_field data "text")) as [e1|t] eqn:Et.
    { intros [= <-]. apply or_empty_trim_inl in Et. left. eauto. }
    destruct (or_empty_trim _ (request_field data "target_lang"))
      as [e2|l] eqn:El.
    { intros [= <-]. apply or_empty_trim_inl in El. left. eauto. }
    destruct (MAX_TEXT_LENGTH <? N.of_nat (length t)).
    { intros [= <-]. right. eexists _, _. reflexivity. }
    destruct (negb (truthy (JStr t))).
    { intros [= <-]. right. eexists _, _. reflexivity. }
    destruct (negb (truthy (JStr l))).
    { intros [= <-]. right. eexists _, _. reflexivity. }
    destruct (negb (lang_format l)); [|discriminate].
    intros [= <-]. right. eexists _, _. reflexivity.
  - intros Hd. unfold validateInput. now rewrite Hd.
  - intros text lang Hd Ht Hl m.
    rewrite (validateInput_on_strings data text lang Hd Ht Hl).
    destruct (MAX_TEXT_LENGTH <? N.of_nat (length text)); [discriminate|].
    destruct (negb (truthy (JStr text))); [discriminate|].
    destruct (negb (truthy (JStr lang))); [discriminate|].
    destruct (negb (lang_format lang)); discriminate.
Qed.

End ValidateInputMore.

(** ** More on getSourceLanguage *)

Lemma toUpperCase_lower (s : jsstring) :
  forallb is_lower s = true ->
  forallb is_upper (toUpperCase s) = true
  /\ length (toUpperCase s) = length s.
Proof.
  unfold toUpperCase. intros H. split; [|apply length_map].
  induction s as [|c s IH]; [reflexivity|].
  simpl in H. apply andb_true_iff in H. destruct H as [Hc Hs].
  simpl. rewrite (IH Hs), andb_true_r, Hc.
  unfold is_lower in Hc. apply andb_true_iff in Hc. destruct Hc as [E1 E2].
  apply N.leb_le in E1. apply N.leb_le in E2.
  unfold is_upper. apply andb_true_iff. split; apply N.leb_le; lia.
Qed.

(** The language hint: "Unknown" when the detector throws; the two-letter
    name for the eleven codes of the table; and for any other code of the
    detector (three lower-case letters) its upper-case form, three
    upper-case letters. *)
Theorem getSourceLanguage_cases (host : Host) (text : jsstring) :
  (franc host text = None -> getSourceLanguage host text = js "Unknown")
  /\ (forall code name,
        franc host text = Some code -> In (code, name) languageMap ->
        getSourceLanguage host text = name /\ length name = 2%nat)
  /\ (forall code,
        franc host text = Some code ->
        length code = 3%nat ->
        forallb is_lower code = true ->
        languageMap_get code languageMap = None ->
        getSourceLanguage host text = toUpperCase code
        /\ length (getSourceLanguage host text) = 3%nat
        /\ forallb is_upper (getSourceLanguage host text) = true).
Proof.
  unfold getSourceLanguage. split; [|split].
  - now intros ->.
  - intros code name -> Hin. simpl in Hin.
    repeat (destruct Hin as [Hin|Hin];
            [injection Hin as <- <-; split; reflexivity|]).
    contradiction.
  - intros code -> Hlen Hlow ->.
    destruct (toUpperCase_lower code Hlow) as [H1 H2].
    split; [reflexivity|]. split; [now rewrite H2|exact H1].
Qed.

(** ** More on callGroqApiWithBackoff *)

Section PolicyMore.

Variable host : Host.
Variable ups : nat -> FetchOutcome.

(** A run that fails has seen every attempt fail, and fails with the
    error of the last one. *)
Lemma policy_result_inl (limit : nat) :
  forall (start : nat) (delay : N) (e : JsError),
    retry_result host ups start (S limit) = inl e ->
    (forall i, (i <= limit)%nat ->
               attempt_fails host (ups (start + i)%nat) = true)
    /\ read_response host (ups (start + limit)%nat) = inl e
    /\ retry_attempts host ups start (S limit) = S limit
    /\ retry_delays host ups start (S limit) delay = backoff delay limit.
Proof.
  induction limit as [|limit IH]; intros start delay e H.
  - simpl in H. rewrite Nat.add_0_r.
    destruct (read_response host (ups start)) as [e'|t] eqn:R;
      [|discriminate H].
    injection H as ->.
    destruct (policy_last_failure host ups start delay e R) as (_ & D & A).
    repeat split; try assumption.
    intros i Hi. replace i with 0%nat by lia.
    rewrite Nat.add_0_r. unfold attempt_fails. now rewrite R.
  - destruct (read_response host (ups start)) as [e'|t] eqn:R.
    + destruct (policy_failure host ups start limit delay e' R)
        as (P1 & P2 & P3).
      rewrite P1 in H. rewrite P2, P3.
      destruct (IH (S start) (delay * 2) e H) as (F & L & A & D).
      rewrite A, D. repeat split.
      * intros i Hi. destruct i as [|i].
        -- rewrite Nat.add_0_r. unfold attempt_fails. now rewrite R.
        -- replace (start + S i)%nat with (S start + i)%nat by lia.
           apply F. lia.
      * replace (start + S limit)%nat with (S start + limit)%nat by lia.
        exact L.
    + destruct (policy_success host ups start (S limit) delay t R)
        as (P1 & _). rewrite P1 in H. discriminate H.
Qed.

(** A run that succeeds returns what the first accepted response
    carries. *)
Lemma policy_result_inr (limit : nat) :
  forall (start : nat) (t : jsstring),
    retry_result host ups start limit = inr t ->
    exists k,
      (k < limit)%nat
      /\ (forall i, (i < k)%nat ->
                    attempt_fails host (ups (start + i)%nat) = true)
      /\ read_response host (ups (start + k)%nat) = inr t.
Proof.
  induction limit as [|limit IH]; intros start t H; [discriminate H|].
  destruct (read_response host (ups start)) as [e|t'] eqn:R.
  - destruct limit as [|limit].
    + simpl in H. rewrite R in H. discriminate H.
    + destruct (policy_failure host ups start limit 0 e R) as (P1 & _).
      rewrite P1 in H. destruct (IH (S start) t H) as (k & Hk & F & Ok).
      exists (S k). split; [lia|split].
      * intros i Hi. destruct i as [|i].
        -- rewrite Nat.add_0_r. unfold attempt_fails. now rewrite R.
        -- replace (start + S i)%nat with (S start + i)%nat by lia.
           apply F. lia.
      * replace (start + S k)%nat with (S start + k)%nat by lia. exact Ok.
  - destruct (policy_success host ups start limit 0 t' R) as (P1 & _).
    rewrite P1 in H. injection H as ->.
    exists 0%nat. split; [lia|split].
    + intros i Hi. lia.
    + now rewrite Nat.add_0_r.
Qed.

(** The failures of all attempts but the last, then an error: that error
    is the result. *)
Lemma policy_last_error (limit start : nat) (e : JsError) :
  (forall i, (i < limit)%nat ->
             attempt_fails host (ups (start + i)%nat) = true) ->
  read_response host (ups (start + limit)%nat) = inl e ->
  retry_result host ups start (S limit) = inl e.
Proof.
  intros F L.
  destruct (policy_all_fail host ups limit start 0
              (fun i => match read_response host (ups (start + i)%nat) with
                        | inl e' => e'
                        | inr _ => e
                        end)) as (P & _).
  - intros i Hi. destruct (Nat.eq_dec i limit) as [->|Hne].
    + now rewrite L.
    + specialize (F i ltac:(lia)). unfold attempt_fails in F.
      destruct (read_response host (ups (start + i)%nat));
        [reflexivity|discriminate F].
  - rewrite P, L. reflexivity.
Qed.

(** The delays of a run are the backoff sequence, one delay per attempt
    but the last. *)
Lemma retry_delays_backoff (limit : nat) :
  forall (start : nat) (delay : N),
    retry_delays host ups start limit delay
    = backoff delay (retry_attempts host ups start limit - 1).
Proof.
  induction limit as [|limit IH]; intros start delay; [reflexivity|].
  destruct (read_response host (ups start)) as [e|t] eqn:R.
  - destruct limit as [|limit].
    + destruct (policy_last_failure host ups start delay e R)
        as (_ & -> & ->). reflexivity.
    + destruct (policy_failure host ups start limit delay e R)
        as (_ & -> & ->).
      rewrite IH.
      pose proof (retry_attempts_pos host ups (S start) limit) as Hpos.
      destruct (retry_attempts host ups (S start) (S limit)) as [|n];
        [lia|].
      simpl. now rewrite Nat.sub_0_r.
  - destruct (policy_success host ups start limit delay t R)
      as (_ & -> & ->). reflexivity.
Qed.

End PolicyMore.

Lemma total_backoff_le (k : nat) :
  (k <= 4)%nat -> total (backoff BASE_DELAY k) <= 15000.
Proof.
  intros H. destruct k as [|[|[|[|[|k]]]]]; try (exfalso; lia);
    vm_compute; discriminate.
Qed.

Lemma length_backoff (delay : N) (k : nat) : length (backoff delay k) = k.
Proof. revert delay. induction k; intros; simpl; [reflexivity|now rewrite IHk]. Qed.

Lemma accepts_trimmed (host : Host) (r : FetchOutcome) (t : jsstring) :
  accepts host r t -> t <> [] /\ trim t = t.
Proof. intros []. split; [assumption|apply trim_idem]. Qed.

Section ClientMore.

Variable host : Host.
Variables (systemPrompt userPrompt : jsstring).
Variable w : World.

Let out := callGroqApiWithBackoff host systemPrompt userPrompt w.
Let outcome (i : nat) := upstream w (fetches w + i)%nat.

(** The client fails only after five requests, each of which failed, and
    then with the error of the fifth attempt, after the four delays. *)
Theorem client_failure_is_fifth_error (e : JsError) :
  fst out = inl e ->
  fetches (snd out) = (fetches w + 5)%nat
  /\ (forall i, (i <= 4)%nat -> attempt_fails host (outcome i) = true)
  /\ read_response host (outcome 4%nat) = inl e
  /\ sleeps (trace (snd out)) = sleeps (trace w) ++ [1000; 2000; 4000; 8000].
Proof.
  intros H.
  destruct (callGroqApiWithBackoff_spec host systemPrompt userPrompt w)
    as [A B C _ _ _ _ _].
  fold out in A, B, C. rewrite A in H.
  change (N.to_nat MAX_RETRIES) with 5%nat in *.
  destruct (policy_result_inl host (upstream w) 4 (fetches w) BASE_DELAY e H)
    as (F & L & N' & D).
  rewrite B, C, N', D. repeat split; assumption.
Qed.

(** A translation the client returns is not empty and has no white space
    at either end: it is the trimmed content of the first choice of the
    first response that an attempt accepted, the attempts before it having
    failed. *)
Theorem client_translation_is_accepted_content (t : jsstring) :
  fst out = inr t ->
  t <> [] /\ trim t = t
  /\ exists k,
      (k < 5)%nat
      /\ accepts host (outcome k) t
      /\ (forall i, (i < k)%nat -> attempt_fails host (outcome i) = true)
      /\ fetches (snd out) = (fetches w + S k)%nat
      /\ sleeps (trace (snd out)) = sleeps (trace w) ++ backoff BASE_DELAY k.
Proof.
  intros H.
  destruct (callGroqApiWithBackoff_spec host systemPrompt userPrompt w)
    as [A B C _ _ _ _ _].
  fold out in A, B, C. rewrite A in H.
  change (N.to_nat MAX_RETRIES) with 5%nat in *.
  destruct (policy_result_inr host (upstream w) 5 (fetches w) t H)
    as (k & Hk & F & Ok).
  destruct (policy_failures_then_success host (upstream w) k 5 (fetches w)
              BASE_DELAY t Hk F Ok) as (_ & D & N').
  pose proof (proj1 (read_response_accepts host _ _) Ok) as Acc.
  destruct (accepts_trimmed host _ _ Acc) as [Hne Htrim].
  split; [exact Hne|split; [exact Htrim|]].
  exists k. rewrite B, C, D, N'. repeat split; assumption.
Qed.

(** Every request of a call is the same request: to [API_URL], with the
    bearer key, the model and the two prompts.  Between one and five are
    sent, and the client does not touch Redis. *)
Theorem client_requests :
  exists n,
    (1 <= n <= 5)%nat
    /\ fetches (snd out) = (fetches w + n)%nat
    /\ upstream_calls (trace (snd out))
       = upstream_calls (trace w)
         ++ repeat {| req_url := API_URL;
                      req_authorization := js "Bearer " ++ API_KEY host;
                      req_model := GROQ_MODEL;
                      req_system := systemPrompt;
                      req_user := userPrompt |} n
    /\ cache_ops (trace (snd out)) = cache_ops (trace w)
    /\ redisClient (snd out) = redisClient w.
Proof.
  destruct (callGroqApiWithBackoff_spec host systemPrompt userPrompt w)
    as [_ _ C D E F _ _].
  fold out in C, D, E, F.
  exists (retry_attempts host (upstream w) (fetches w)
            (N.to_nat MAX_RETRIES)).
  pose proof (retry_attempts_le host (upstream w) (N.to_nat MAX_RETRIES)
                (fetches w)) as Hle.
  pose proof (retry_attempts_pos host (upstream w) (fetches w) 4) as Hpos.
  change (N.to_nat MAX_RETRIES) with 5%nat in *.
  repeat split; try assumption; lia.
Qed.

(** A call that sends [n] requests sleeps [n - 1] times, for 1000 ms
    doubled each time; it never asks for more than 15000 ms in all. *)
Theorem client_delay_bounds :
  exists n,
    (1 <= n <= 5)%nat
    /\ fetches (snd out) = (fetches w + n)%nat
    /\ sleeps (trace (snd out))
       = sleeps (trace w) ++ backoff BASE_DELAY (n - 1)
    /\ total (backoff BASE_DELAY (n - 1)) <= 15000.
Proof.
  destruct (callGroqApiWithBackoff_spec host systemPrompt userPrompt w)
    as [_ B C _ _ _ _ _].
  fold out in B, C.
  exists (retry_attempts host (upstream w) (fetches w)
            (N.to_nat MAX_RETRIES)).
  pose proof (retry_attempts_le host (upstream w) (N.to_nat MAX_RETRIES)
                (fetches w)) as Hle.
  pose proof (retry_attempts_pos host (upstream w) (fetches w) 4) as Hpos.
  rewrite retry_delays_backoff in B.
  change (N.to_nat MAX_RETRIES) with 5%nat in *.
  split; [lia|]. split; [exact C|]. split; [exact B|].
  apply total_backoff_le; lia.
Qed.

End ClientMore.

(** ** More on processTranslation *)

Lemma startsWith_app (x b : jsstring) : startsWith x (x ++ b) = true.
Proof.
  induction x as [|c x IH]; [reflexivity|].
  simpl. now rewrite N.eqb_refl, IH.
Qed.

Lemma includes_here (x b : jsstring) : includes x (x ++ b) = true.
Proof.
  destruct (x ++ b) eqn:E; simpl; rewrite <- E, startsWith_app; reflexivity.
Qed.

Lemma includes_later (x a s : jsstring) :
  includes x s = true -> includes x (a ++ s) = true.
Proof.
  intros H. induction a as [|c a IH]; [exact H|].
  simpl. rewrite IH. apply orb_true_r.
Qed.

(** [match] finds the status that the client printed in its message. *)
Lemma match_status_http (ds : jsstring) :
  forallb is_digit ds = true -> ds <> [] ->
  match_status (js "HTTP error! status: " ++ ds) = Some ds.
Proof.
  intros Hd Hne.
  change (js "HTTP error! status: " ++ ds)
    with (js "HTTP error! " ++ (js "status: " ++ ds)).
  assert (Here : match_status (js "status: " ++ ds) = Some ds).
  { change (js "status: " ++ ds) with (115 :: js "tatus: " ++ ds).
    cbn [match_status].
    change (115 :: js "tatus: " ++ ds) with (js "status: " ++ ds).
    rewrite startsWith_app.
    change (drop (length (js "status: ")) (js "status: " ++ ds)) with ds.
    rewrite (leading_digits_all ds Hd).
    rewrite bool_decide_eq_false_2 by exact Hne. reflexivity. }
  revert Here. generalize (js "status: " ++ ds). intros rest Here.
  simpl. exact Here.
Qed.

Lemma classify_http (status : N) :
  classify (Error (js "HTTP error! status: " ++ decimal status))
  = TranslationError (js "Groq API Error (" ++ decimal status ++ js ")")
                     status
                     (Some (js "HTTP error! status: " ++ decimal status)).
Proof.
  unfold classify. cbn [error_message].
  change (js "HTTP error! status: " ++ decimal status)
    with (js "HTTP error" ++ (js "! status: " ++ decimal status)) at 1.
  rewrite includes_here.
  destruct (decimal_digits status) as [Hd Hne].
  rewrite (match_status_http _ Hd Hne), parseInt_decimal. reflexivity.
Qed.

(** Whatever the error, its class is a [TranslationError] that carries the
    message of the error as its details. *)
Lemma classify_shape (e : JsError) :
  exists m c, classify e = TranslationError m c (Some (error_message e)).
Proof.
  unfold classify.
  destruct (includes (js "HTTP error") (error_message e)).
  - destruct (match_status (error_message e)); eexists _, _; reflexivity.
  - destruct (includes (js "empty translation") (error_message e));
      eexists _, _; reflexivity.
Qed.

Section PipelineMore.

Variable host : Host.
Variables (text lang : jsstring).

Let key := cacheKey text lang.
Let code := getSourceLanguage host text.

(** What a call makes of the upstream when the read gives no entry. *)
Lemma pipeline_on_miss (ip : JsVal) (forceRefresh : bool) (w : World) :
  cache_hit forceRefresh key lang (redisClient w) = None ->
  let out := processTranslation host text lang ip forceRefresh w in
  let delays :=
    retry_delays host (upstream w) (fetches w) 5 BASE_DELAY in
  let attempts := retry_attempts host (upstream w) (fetches w) 5 in
  upstream_calls (trace (snd out))
  = upstream_calls (trace w)
    ++ repeat (groq_request host (systemInstruction code lang) text) attempts
  /\ fetches (snd out) = (fetches w + attempts)%nat
  /\ match retry_result host (upstream w) (fetches w) 5 with
     | inr t =>
         let entry := cache_entry code t (clock w + total delays) in
         fst out = inr (fresh_result host text lang forceRefresh t)
         /\ cache_ops (trace (snd out))
            = cache_ops (trace w)
              ++ reads_of forceRefresh key (redisClient w)
              ++ writes_of key entry (redisClient w)
         /\ redisClient (snd out) = written key entry (redisClient w)
     | inl e =>
         fst out = inl (classify e)
         /\ cache_ops (trace (snd out))
            = cache_ops (trace w)
              ++ reads_of forceRefresh key (redisClient w)
         /\ redisClient (snd out) = redisClient w
     end.
Proof.
  intros Hmiss out delays attempts.
  pose proof (processTranslation_spec host text lang ip forceRefresh w) as S.
  cbn zeta in S. fold key code out in S. rewrite Hmiss in S.
  change (N.to_nat MAX_RETRIES) with 5%nat in S.
  destruct S as (_ & S1 & S2 & _ & S3). repeat split; assumption.
Qed.

(** After a fresh translation through a client that accepts its commands,
    the next plain call for the same pair answers from the cache. *)
Lemma fresh_then_hit (ip1 ip2 : JsVal) (forceRefresh : bool) (w : World)
    (c : Redis) (t : jsstring) :
  redisClient w = Some c ->
  get_error c = None ->
  setEx_error c = None ->
  cache_hit forceRefresh key lang (Some c) = None ->
  retry_result host (upstream w) (fetches w) 5 = inr t ->
  let out1 := processTranslation host text lang ip1 forceRefresh w in
  let out2 := processTranslation host text lang ip2 false (snd out1) in
  fst out1 = inr (fresh_result host text lang forceRefresh t)
  /\ out2 = (inr {| source_language := JStr code;
                    target_language := lang;
                    translated_text := JStr t;
                    status := js "cached" |},
             emit (EvRedisGet key) (snd out1)).
Proof.
  intros Hc Hg Hs Hmiss Hok out1 out2.
  pose proof (pipeline_on_miss ip1 forceRefresh w) as S1.
  rewrite Hc in S1. specialize (S1 Hmiss). cbn zeta in S1.
  fold out1 in S1. rewrite Hok in S1.
  destruct S1 as (_ & _ & R1 & _ & C1).
  split; [exact R1|].
  pose proof (processTranslation_spec host text lang ip2 false (snd out1))
    as S2.
  cbn zeta in S2. fold key code out2 in S2. rewrite C1 in S2.
  unfold written in S2. rewrite Hs in S2.
  unfold cache_hit in S2. cbn [get_error store] in S2.
  rewrite Hg, lookup_insert_eq in S2. exact S2.
Qed.

(** Translating twice: when the first plain call finds no entry and the
    upstream gives a translation, the second plain call for the same pair
    returns that translation and the same source language with the status
    "cached", and sends no request upstream.  The second call runs in the
    state the first one leaves, so the entry has not expired. *)
Theorem translate_twice_cached (ip1 ip2 : JsVal) (w : World) (c : Redis)
    (t : jsstring) :
  redisClient w = Some c ->
  get_error c = None ->
  setEx_error c = None ->
  cache_hit false key lang (Some c) = None ->
  retry_result host (upstream w) (fetches w) 5 = inr t ->
  let out1 := processTranslation host text lang ip1 false w in
  let out2 := processTranslation host text lang ip2 false (snd out1) in
  (exists r1, fst out1 = inr r1 /\ status r1 = js "generated"
              /\ translated_text r1 = JStr t)
  /\ (exists r2, fst out2 = inr r2 /\ status r2 = js "cached"
                 /\ translated_text r2 = JStr t
                 /\ source_language r2 = JStr code
                 /\ target_language r2 = lang)
  /\ upstream_calls (trace (snd out2)) = upstream_calls (trace (snd out1))
  /\ fetches (snd out2) = fetches (snd out1).
Proof.
  intros Hc Hg Hs Hmiss Hok out1 out2.
  destruct (fresh_then_hit ip1 ip2 false w c t Hc Hg Hs Hmiss Hok)
    as (R1 & R2).
  fold out1 in R1. fold out1 out2 in R2.
  split; [eexists; split; [exact R1|split; reflexivity]|].
  rewrite R2. cbn [fst snd emit trace fetches].
  split; [eexists; repeat split|].
  rewrite upstream_calls_app. simpl. rewrite app_nil_r. split; reflexivity.
Qed.

(** A forced refresh replaces the entry: whatever the store held for the
    pair, after a successful [forceRefresh] call the next plain call (made
    before the entry expires) returns the new translation with the status
    "cached". *)
Theorem retranslate_overwrites (ip1 ip2 : JsVal) (w : World) (c : Redis)
    (t : jsstring) :
  redisClient w = Some c ->
  get_error c = None ->
  setEx_error c = None ->
  retry_result host (upstream w) (fetches w) 5 = inr t ->
  let out1 := processTranslation host text lang ip1 true w in
  let out2 := processTranslation host text lang ip2 false (snd out1) in
  (exists r1, fst out1 = inr r1 /\ status r1 = js "regenerated"
              /\ translated_text r1 = JStr t)
  /\ (exists r2, fst out2 = inr r2 /\ status r2 = js "cached"
                 /\ translated_text r2 = JStr t
                 /\ source_language r2 = JStr code)
  /\ fetches (snd out2) = fetches (snd out1).
Proof.
  intros Hc Hg Hs Hok out1 out2.
  destruct (fresh_then_hit ip1 ip2 true w c t Hc Hg Hs eq_refl Hok)
    as (R1 & R2).
  fold out1 in R1. fold out1 out2 in R2.
  split; [eexists; split; [exact R1|split; reflexivity]|].
  rewrite R2. cbn [fst snd emit fetches].
  split; [eexists; repeat split|reflexivity].
Qed.

(** An entry that cannot be used - an empty string, a text that is not
    JSON, or the JSON [null] - counts as a miss: the call goes upstream,
    and on success the entry is replaced by the fresh one. *)
Theorem unusable_entry_is_replaced (ip : JsVal) (w : World) (c : Redis)
    (ttl : N) (stored : JsonText) (t : jsstring) :
  redisClient w = Some c ->
  get_error c = None ->
  setEx_error c = None ->
  store c !! key = Some (ttl, stored) ->
  stored = TextEmpty \/ stored = TextInvalid \/ stored = TextOf JNull ->
  retry_result host (upstream w) (fetches w) 5 = inr t ->
  let out := processTranslation host text lang ip false w in
  fst out = inr (fresh_result host text lang false t)
  /\ exists c' now,
      redisClient (snd out) = Some c'
      /\ store c' !! key
         = Some (CACHE_EXPIRY_SECONDS, cache_entry code t now).
Proof.
  intros Hc Hg Hs Hst Hbad Hok out.
  assert (Hmiss : cache_hit false key lang (redisClient w) = None).
  { rewrite Hc. unfold cache_hit. rewrite Hg, Hst.
    destruct Hbad as [->|[->| ->]]; reflexivity. }
  pose proof (pipeline_on_miss ip false w Hmiss) as S.
  cbn zeta in S. fold out in S. rewrite Hok in S.
  destruct S as (_ & _ & R & _ & C).
  split; [exact R|].
  rewrite C, Hc. unfold written. rewrite Hs.
  eexists _, _. split; [reflexivity|]. cbn [store].
  apply lookup_insert_eq.
Qed.

(** The pipeline throws nothing but a [TranslationError]: it does so only
    after five requests each of which failed, the details are the message
    of the error of the fifth attempt, and nothing has been written to the
    store. *)
Theorem pipeline_failure (ip : JsVal) (forceRefresh : bool) (w : World)
    (e : JsError) :
  let out := processTranslation host text lang ip forceRefresh w in
  fst out = inl e ->
  exists m status last,
    e = TranslationError m status (Some (error_message last))
    /\ read_response host (upstream w (fetches w + 4)%nat) = inl last
    /\ (forall i, (i <= 4)%nat ->
                  attempt_fails host (upstream w (fetches w + i)%nat) = true)
    /\ fetches (snd out) = (fetches w + 5)%nat
    /\ upstream_calls (trace (snd out))
       = upstream_calls (trace w)
         ++ repeat (groq_request host (systemInstruction code lang) text) 5
    /\ redisClient (snd out) = redisClient w
    /\ cache_ops (trace (snd out))
       = cache_ops (trace w) ++ reads_of forceRefresh key (redisClient w).
Proof.
  intros out H.
  pose proof (processTranslation_spec host text lang ip forceRefresh w) as S.
  cbn zeta in S. fold key code out in S.
  destruct (cache_hit forceRefresh key lang (redisClient w)) as [r|].
  { rewrite S in H. discriminate H. }
  change (N.to_nat MAX_RETRIES) with 5%nat in S.
  destruct S as (_ & U & F & _ & S).
  destruct (retry_result host (upstream w) (fetches w) 5) as [last|t] eqn:R.
  - destruct S as (E & O & C). rewrite E in H. injection H as <-.
    destruct (policy_result_inl host (upstream w) 4 (fetches w) BASE_DELAY
                last R) as (Hall & L & N' & _).
    destruct (classify_shape last) as (m & status & ->).
    exists m, status, last. rewrite F, U, N'.
    split; [reflexivity|]. split; [exact L|]. split; [exact Hall|].
    split; [reflexivity|]. split; [reflexivity|].
    split; [exact C|exact O].
  - destruct S as (E & _). rewrite E in H. discriminate H.
Qed.

(** The status of the upstream is mirrored: when the fifth attempt meets
    an unsuccessful HTTP status, the error of the pipeline has that status
    code, names it in its message and carries the client's message as
    details. *)
Theorem upstream_status_mirrored (ip : JsVal) (forceRefresh : bool)
    (w : World) (status : N) (body : FetchBody) :
  cache_hit forceRefresh key lang (redisClient w) = None ->
  (forall i, (i < 4)%nat ->
             attempt_fails host (upstream w (fetches w + i)%nat) = true) ->
  upstream w (fetches w + 4)%nat = FetchResponse false status body ->
  fst (processTranslation host text lang ip forceRefresh w)
  = inl (TranslationError
           (js "Groq API Error (" ++ decimal status ++ js ")") status
           (Some (js "HTTP error! status: " ++ decimal status))).
Proof.
  intros Hmiss F L.
  pose proof (pipeline_on_miss ip forceRefresh w Hmiss) as S.
  cbn zeta in S.
  rewrite (policy_last_error host (upstream w) 4 (fetches w)
             (Error (js "HTTP error! status: " ++ decimal status)) F) in S
    by (rewrite L; reflexivity).
  destruct S as (_ & _ & -> & _). now rewrite classify_http.
Qed.

(** The two other classes: a blank translation on the fifth attempt gives
    the 400 error about the model, and an error whose message mentions
    neither "HTTP error" nor "empty translation" - a response without
    choices, a network failure - gives the 500 error, each with the message
    of the error as details. *)
Theorem failure_classes (ip : JsVal) (forceRefresh : bool) (w : World)
    (last : JsError) :
  cache_hit forceRefresh key lang (redisClient w) = None ->
  (forall i, (i < 4)%nat ->
             attempt_fails host (upstream w (fetches w + i)%nat) = true) ->
  read_response host (upstream w (fetches w + 4)%nat) = inl last ->
  let out := processTranslation host text lang ip forceRefresh w in
  (last = Error (js "LLM returned empty translation text.") ->
   fst out
   = inl (TranslationError
            (js "The model struggled to generate a translation. The input may be too short or ambiguous.")
            400 (Some (js "LLM returned empty translation text."))))
  /\ (last = Error (js "API returned unparseable response structure.") ->
      fst out
      = inl (TranslationError (js "An internal server error occurred") 500
               (Some (js "API returned unparseable response structure."))))
  /\ (includes (js "HTTP error") (error_message last) = false ->
      includes (js "empty translation") (error_message last) = false ->
      fst out
      = inl (TranslationError (js "An internal server error occurred") 500
               (Some (error_message last)))).
Proof.
  intros Hmiss F L out.
  pose proof (pipeline_on_miss ip forceRefresh w Hmiss) as S.
  cbn zeta in S. fold out in S.
  rewrite (policy_last_error host (upstream w) 4 (fetches w) last F L) in S.
  destruct S as (_ & _ & -> & _).
  split; [|split].
  - intros ->. reflexivity.
  - intros ->. reflexivity.
  - intros H1 H2. unfold classify. now rewrite H1, H2.
Qed.

(** What goes upstream on a miss: every request carries the text as it is
    as the user prompt and the bearer key, and its system prompt names the
    language hint and the requested target language. *)
Theorem upstream_request_content (ip : JsVal) (forceRefresh : bool)
    (w : World) :
  cache_hit forceRefresh key lang (redisClient w) = None ->
  let out := processTranslation host text lang ip forceRefresh w in
  exists request n,
    (1 <= n <= 5)%nat
    /\ upstream_calls (trace (snd out))
       = upstream_calls (trace w) ++ repeat request n
    /\ req_user request = text
    /\ req_url request = API_URL
    /\ req_authorization request = js "Bearer " ++ API_KEY host
    /\ includes lang (req_system request) = true
    /\ includes code (req_system request) = true.
Proof.
  intros Hmiss out.
  pose proof (pipeline_on_miss ip forceRefresh w Hmiss) as S.
  cbn zeta in S. fold out in S. destruct S as (U & _).
  pose proof (retry_attempts_le host (upstream w) 5 (fetches w)) as Hle.
  pose proof (retry_attempts_pos host (upstream w) (fetches w) 4) as Hpos.
  eexists _, _. split; [split; [exact Hpos|exact Hle]|].
  split; [exact U|]. cbn [req_user req_url req_authorization req_system
                          groq_request].
  repeat split; unfold systemInstruction.
  - do 6 apply includes_later. apply includes_here.
  - do 4 apply includes_later. apply includes_here.
Qed.

End PipelineMore.

(** ** More on the routes *)

Section RouteMore.

Variable host : Host.
Hypothesis configured : API_KEY host <> [].

Lemma key_truthy : truthy (JStr (API_KEY host)) = true.
Proof. simpl. destruct (API_KEY host); [contradiction|reflexivity]. Qed.

(** With a key, a handler validates the body and runs the pipeline on the
    two trimmed fields. *)
Lemma handlers_with_key (req : Request) (w : World) :
  let run forceRefresh :=
    match validateInput (body req) with
    | inl e => (Next e, w)
    | inr (text, lang) =>
        respond (processTranslation host text lang
                   (js_or (x_forwarded_for req) (ip req)) forceRefresh) w
    end in
  translate_handler host req w = run false
  /\ retranslate_handler host req w = run true.
Proof.
  unfold translate_handler, retranslate_handler, respond.
  rewrite key_truthy. cbn [negb]. unfold bind, lift.
  destruct (validateInput (body req)) as [e|[text lang]]; split; reflexivity.
Qed.

(** A body that does not validate stops the handler at once: the error of
    [validateInput] goes to [next], and Redis, the upstream and the clock
    are left alone. *)
Theorem invalid_body_short_circuits (req : Request) (w : World)
    (e : JsError) :
  validateInput (body req) = inl e ->
  translate_handler host req w = (Next e, w)
  /\ retranslate_handler host req w = (Next e, w).
Proof.
  intros H. destruct (handlers_with_key req w) as [-> ->].
  now rewrite H.
Qed.

Lemma pipeline_status (text lang : jsstring) (ip : JsVal)
    (forceRefresh : bool) (w : World) (r : TranslationResult) :
  fst (processTranslation host text lang ip forceRefresh w) = inr r ->
  target_language r = lang
  /\ (forceRefresh = true -> status r = js "regenerated")
  /\ (forceRefresh = false ->
      status r = js "cached" \/ status r = js "generated").
Proof.
  intros H.
  pose proof (processTranslation_spec host text lang ip forceRefresh w) as S.
  cbn zeta in S.
  destruct (cache_hit forceRefresh (cacheKey text lang) lang (redisClient w))
    as [hit|] eqn:Hit.
  - rewrite S in H. injection H as <-.
    unfold cache_hit in Hit. destruct forceRefresh; [discriminate Hit|].
    destruct (redisClient w) as [c|]; [|discriminate Hit].
    destruct (get_error c); [discriminate Hit|].
    destruct (snd <$> store c !! cacheKey text lang) as [[| |v]|];
      try discriminate Hit.
    destruct (get_prop v (js "source_language")); [|discriminate Hit].
    destruct (get_prop v (js "translated_text")); [|discriminate Hit].
    injection Hit as <-. split; [reflexivity|].
    split; [discriminate|]. intros _. now left.
  - destruct S as (_ & _ & _ & _ & S).
    destruct (retry_result host (upstream w) (fetches w)
                (N.to_nat MAX_RETRIES)).
    + destruct S as (E & _). rewrite E in H. discriminate H.
    + destruct S as (E & _). rewrite E in H. injection H as <-.
      split; [reflexivity|]. split.
      * now intros ->.
      * intros ->. now right.
Qed.

(** The replies of the two routes: a handler answers 200 only for a body
    that validates, with the four fields of a result whose target language
    is the validated one; the status is "cached" or "generated" on
    [/api/translate] and "regenerated" on [/api/retranslate]. *)
Theorem reply_status_by_route (req : Request) (w : World) (code : N)
    (payload : JsVal) :
  (fst (translate_handler host req w) = ResJson code payload ->
   exists text lang r,
     validateInput (body req) = inr (text, lang)
     /\ code = 200 /\ payload = result_json r
     /\ target_language r = lang
     /\ (status r = js "cached" \/ status r = js "generated"))
  /\ (fst (retranslate_handler host req w) = ResJson code payload ->
      exists text lang r,
        validateInput (body req) = inr (text, lang)
        /\ code = 200 /\ payload = result_json r
        /\ target_language r = lang
        /\ status r = js "regenerated").
Proof.
  destruct (handlers_with_key req w) as [-> ->].
  destruct (validateInput (body req)) as [e|[text lang]];
    [split; intros H; discriminate H|].
  unfold respond. split.
  - destruct (processTranslation host text lang _ false w) as [[e|r] w']
      eqn:P; cbn [fst]; intros H; [discriminate H|].
    injection H as <- <-.
    destruct (pipeline_status text lang
                (js_or (x_forwarded_for req) (ip req)) false w r)
      as (T & _ & S).
    { now rewrite P. }
    exists text, lang, r. repeat split; auto.
  - destruct (processTranslation host text lang _ true w) as [[e|r] w']
      eqn:P; cbn [fst]; intros H; [discriminate H|].
    injection H as <- <-.
    destruct (pipeline_status text lang
                (js_or (x_forwarded_for req) (ip req)) true w r)
      as (T & S & _).
    { now rewrite P. }
    exists text, lang, r. repeat split; auto.
Qed.

(** Two bodies that differ only by white space around their fields share
    one entry: when both validate to the same pair, the first request finds
    no entry and the upstream gives a translation, the first reply is 200
    "generated" and the second is 200 "cached" with the same translation,
    without a further request upstream. *)
Theorem same_pair_same_entry (req1 req2 : Request) (w : World) (c : Redis)
    (text lang t : jsstring) :
  validateInput (body req1) = inr (text, lang) ->
  validateInput (body req2) = inr (text, lang) ->
  redisClient w = Some c ->
  get_error c = None ->
  setEx_error c = None ->
  cache_hit false (cacheKey text lang) lang (Some c) = None ->
  retry_result host (upstream w) (fetches w) 5 = inr t ->
  let first := translate_handler host req1 w in
  let second := translate_handler host req2 (snd first) in
  fst first
  = ResJson 200 (result_json (fresh_result host text lang false t))
  /\ fst second
     = ResJson 200
         (result_json {| source_language :=
                           JStr (getSourceLanguage host text);
                         target_language := lang;
                         translated_text := JStr t;
                         status := js "cached" |})
  /\ fetches (snd second) = fetches (snd first).
Proof.
  intros V1 V2 Hc Hg Hs Hmiss Hok first second.
  destruct (fresh_then_hit host text lang
              (js_or (x_forwarded_for req1) (ip req1))
              (js_or (x_forwarded_for req2) (ip req2))
              false w c t Hc Hg Hs Hmiss Hok) as (R1 & R2).
  assert (E1 : first
               = respond (processTranslation host text lang
                            (js_or (x_forwarded_for req1) (ip req1)) false)
                         w).
  { unfold first. destruct (handlers_with_key req1 w) as [-> _].
    now rewrite V1. }
  assert (W1 : snd first
               = snd (processTranslation host text lang
                        (js_or (x_forwarded_for req1) (ip req1)) false w)).
  { rewrite E1. unfold respond.
    now destruct (processTranslation host text lang _ false w) as [[?|?] ?]. }
  assert (E2 : second
               = respond (processTranslation host text lang
                            (js_or (x_forwarded_for req2) (ip req2)) false)
                         (snd first)).
  { unfold second. destruct (handlers_with_key req2 (snd first)) as [-> _].
    now rewrite V2. }
  split; [|split].
  - rewrite E1. unfold respond.
    destruct (processTranslation host text lang _ false w) as [[?|?] ?];
      cbn [fst] in *; [discriminate R1|]. now injection R1 as ->.
  - rewrite E2, W1. unfold respond. now rewrite R2.
  - rewrite E2, W1. unfold respond. now rewrite R2.
Qed.

End RouteMore.

(** The health check sends nothing upstream, asks for no delay and leaves
    the client handle and its store as they are: it sends one [ping] when
    a client is present and nothing otherwise. *)
Theorem health_only_pings (host : Host) (w : World) :
  let after := snd (health_handler host w) in
  fetches after = fetches w
  /\ upstream_calls (trace after) = upstream_calls (trace w)
  /\ sleeps (trace after) = sleeps (trace w)
  /\ redisClient after = redisClient w
  /\ cache_ops (trace after)
     = cache_ops (trace w)
       ++ match redisClient w with Some _ => [EvRedisPing] | None => [] end.
Proof.
  intros after. unfold after, health_handler.
  destruct (redisClient w) as [c|] eqn:Hc.
  - unfold redis_ping. destruct (ping_error c); simpl;
      rewrite ?upstream_calls_app, ?sleeps_app, ?cache_ops_app; simpl;
      rewrite ?app_nil_r; now repeat split.
  - simpl. rewrite app_nil_r. now repeat split.
Qed.

(** ** The playground *)

(** A request that the playground sends passes every check of the server
    on the text, and on the presence of the language: the server accepts it
    with the two trimmed values, or rejects it for the format of the
    language, the one rule the playground does not test. *)
Theorem playground_requests_pass_text_checks
    (endpoint textValue langValue : jsstring) (payload : JsVal) :
  makeRequest_checks endpoint textValue langValue
  = PostJson endpoint payload ->
  payload = JObj [ (js "text", JStr (trim textValue));
                   (js "target_lang", JStr (trim langValue)) ]
  /\ (1 <= length (trim textValue) <= 2000)%nat
  /\ trim langValue <> []
  /\ validateInput payload
     = if lang_format (trim langValue)
       then inr (trim textValue, trim langValue)
       else inl InvalidTargetLangFormat.
Proof.
  unfold makeRequest_checks. cbn zeta.
  destruct (trim textValue) as [|c text] eqn:Et; cbn [truthy negb];
    [intros H; discriminate H|].
  destruct (trim langValue) as [|d lang] eqn:El; cbn [truthy negb];
    [intros H; discriminate H|].
  destruct (2000 <? N.of_nat (length (c :: text))) eqn:Hlen;
    [intros H; discriminate H|].
  intros [= <-]. apply N.ltb_ge in Hlen.
  split; [reflexivity|]. split; [simpl in *; lia|]. split; [discriminate|].
  assert (Tt : trims_to (JStr (c :: text)) (c :: text)).
  { exists (c :: text). split; [reflexivity|]. rewrite <- Et. apply trim_idem. }
  assert (Tl : trims_to (JStr (d :: lang)) (d :: lang)).
  { exists (d :: lang). split; [reflexivity|]. rewrite <- El. apply trim_idem. }
  rewrite (validateInput_on_strings
             (JObj [ (js "text", JStr (c :: text));
                     (js "target_lang", JStr (d :: lang)) ])
             (c :: text) (d :: lang) eq_refl Tt Tl).
  replace (MAX_TEXT_LENGTH <? N.of_nat (length (c :: text))) with false
    by (symmetry; apply N.ltb_ge; unfold MAX_TEXT_LENGTH; lia).
  cbn [truthy negb]. now destruct (lang_format (d :: lang)).
Qed.

(** What the playground refuses the server would refuse too: when the
    playground shows an error instead of sending, the body made of the two
    raw values does not validate. *)
Theorem playground_refusals_agree
    (endpoint textValue langValue content : jsstring) (isError : bool) :
  makeRequest_checks endpoint textValue langValue
  = ShowResult content isError ->
  isError = true
  /\ exists e,
      validateInput (JObj [ (js "text", JStr textValue);
                            (js "target_lang", JStr langValue) ])
      = inl e
      /\ (e = EmptyText \/ e = EmptyTargetLang
          \/ e = TextTooLong (length (trim textValue))).
Proof.
  unfold makeRequest_checks. cbn zeta. intros H.
  assert (Tt : trims_to (JStr textValue) (trim textValue))
    by apply trims_to_string.
  assert (Tl : trims_to (JStr langValue) (trim langValue))
    by apply trims_to_string.
  rewrite (validateInput_on_strings
             (JObj [ (js "text", JStr textValue);
                     (js "target_lang", JStr langValue) ])
             _ _ eq_refl Tt Tl).
  destruct (trim textValue) as [|c text] eqn:Et; cbn [truthy negb] in *.
  { injection H as _ <-. split; [reflexivity|]. eexists. split; [reflexivity|].
    now left. }
  destruct (trim langValue) as [|d lang] eqn:El; cbn [truthy negb] in *.
  { injection H as _ <-. split; [reflexivity|].
    destruct (MAX_TEXT_LENGTH <? N.of_nat (length (c :: text)));
      eexists; (split; [reflexivity|]); auto. }
  change MAX_TEXT_LENGTH with 2000.
  destruct (2000 <? N.of_nat (length (c :: text))); [|discriminate H].
  injection H as _ <-. split; [reflexivity|]. eexists. split; [reflexivity|].
  auto.
Qed.

(** ** Instances of the further properties *)

Lemma validateInput_accepts_iff_sample :
  truthy hello_body = true
  /\ (1 <= length (js "Hello world") <= 2000)%nat
  /\ lang_format (js "Spanish") = true.
Proof.
  destruct (proj1 (validateInput_accepts_iff hello_body (js "Hello world")
                     (js "Spanish")) eq_refl)
    as (A & _ & _ & B & C).
  split; [exact A|split; [exact B|exact C]].
Defined.

Lemma validated_pair_normal_sample :
  trim (js "Hello world") = js "Hello world"
  /\ trim (js "Spanish") = js "Spanish".
Proof.
  destruct (validated_pair_normal (js "Hello world") (js "Spanish"))
    as (A & B & _).
  - exists (JObj [ (js "text", JStr (js "  Hello world "));
                   (js "target_lang", JStr (js " Spanish")) ]).
    reflexivity.
  - split; [exact A|exact B].
Defined.

Lemma target_lang_rules_sample :
  validateInput (JObj [ (js "text", JStr (js "Hello world"));
                        (js "target_lang", JStr (js "Spanish2")) ])
  = inl InvalidTargetLangFormat.
Proof.
  destruct (target_lang_rules
              (JObj [ (js "text", JStr (js "Hello world"));
                      (js "target_lang", JStr (js "Spanish2")) ])
              (js "Hello world") (js "Spanish2"))
    as (_ & _ & H).
  - reflexivity.
  - exists (js "Hello world"). split; reflexivity.
  - exists (js "Spanish2"). split; reflexivity.
  - simpl. lia.
  - apply (H 50).
    + apply list_elem_of_In. simpl. tauto.
    + reflexivity.
Defined.

Lemma validateInput_error_kinds_sample :
  validateInput JNull
  = inl (TranslationError (js "Request must be JSON") 400 None).
Proof.
  destruct (validateInput_error_kinds JNull) as (_ & H & _).
  apply H. reflexivity.
Defined.

Lemma getSourceLanguage_cases_sample :
  getSourceLanguage sample_host (js "Hello world") = js "EN"
  /\ getSourceLanguage undetermined_host (js "42") = js "UND".
Proof.
  split.
  - destruct (getSourceLanguage_cases sample_host (js "Hello world"))
      as (_ & H & _).
    destruct (H (js "eng") (js "EN")) as (E & _).
    + reflexivity.
    + simpl. tauto.
    + exact E.
  - destruct (getSourceLanguage_cases undetermined_host (js "42"))
      as (_ & _ & H).
    destruct (H (js "und")) as (E & _).
    + reflexivity.
    + reflexivity.
    + reflexivity.
    + reflexivity.
    + exact E.
Defined.

Lemma client_failure_is_fifth_error_sample :
  read_response sample_host (dead_upstream 4)
  = inl (Error (js "HTTP error! status: 504"))
  /\ fetches (snd (callGroqApiWithBackoff sample_host [] (js "Hello world")
                     (world_with None dead_upstream))) = 5%nat.
Proof.
  destruct (client_failure_is_fifth_error sample_host [] (js "Hello world")
              (world_with None dead_upstream)
              (Error (js "HTTP error! status: 504")))
    as (A & _ & B & _).
  - reflexivity.
  - split; [exact B|exact A].
Defined.

Lemma client_translation_is_accepted_content_sample :
  trim (js "Hola mundo") = js "Hola mundo"
  /\ exists k, accepts sample_host (flaky_upstream k) (js "Hola mundo").
Proof.
  destruct (client_translation_is_accepted_content sample_host []
              (js "Hello world") (world_with None flaky_upstream)
              (js "Hola mundo"))
    as (_ & A & k & _ & B & _).
  - reflexivity.
  - split; [exact A|]. exists k. exact B.
Defined.

Lemma translate_twice_cached_sample :
  let w := world_with (Some (healthy_redis ∅)) steady_upstream in
  let out1 :=
    processTranslation sample_host (js "Hello world") (js "Spanish")
                       JUndefined false w in
  let out2 :=
    processTranslation sample_host (js "Hello world") (js "Spanish")
                       JUndefined false (snd out1) in
  (exists r2, fst out2 = inr r2 /\ status r2 = js "cached"
              /\ translated_text r2 = JStr (js "Hola mundo"))
  /\ fetches (snd out2) = fetches (snd out1).
Proof.
  intros w out1 out2.
  destruct (translate_twice_cached sample_host (js "Hello world")
              (js "Spanish") JUndefined JUndefined w (healthy_redis ∅)
              (js "Hola mundo"))
    as (_ & (r2 & A & B & C & _) & _ & D); try reflexivity.
  split; [|exact D]. exists r2. split; [exact A|split; [exact B|exact C]].
Defined.

Lemma retranslate_overwrites_sample :
  let w := world_with (Some warm_redis)
                      (fun _ => completion [js "Hola, mundo"]) in
  let out1 :=
    processTranslation sample_host (js "Hello world") (js "Spanish")
                       JUndefined true w in
  let out2 :=
    processTranslation sample_host (js "Hello world") (js "Spanish")
                       JUndefined false (snd out1) in
  exists r2, fst out2 = inr r2 /\ status r2 = js "cached"
             /\ translated_text r2 = JStr (js "Hola, mundo")
             /\ source_language r2 = JStr (js "EN").
Proof.
  intros w out1 out2.
  destruct (retranslate_overwrites sample_host (js "Hello world")
              (js "Spanish") JUndefined JUndefined w warm_redis
              (js "Hola, mundo"))
    as (_ & H & _); try reflexivity.
  exact H.
Defined.

Lemma unusable_entry_is_replaced_sample :
  let key := cacheKey (js "Hello world") (js "Spanish") in
  let w := world_with (Some (healthy_redis {[ key := (60, TextInvalid) ]}))
                      steady_upstream in
  let out :=
    processTranslation sample_host (js "Hello world") (js "Spanish")
                       JUndefined false w in
  fst out = inr (fresh_result sample_host (js "Hello world") (js "Spanish")
                              false (js "Hola mundo")).
Proof.
  intros key w out.
  destruct (unusable_entry_is_replaced sample_host (js "Hello world")
              (js "Spanish") JUndefined w
              (healthy_redis {[ key := (60, TextInvalid) ]}) 60 TextInvalid
              (js "Hola mundo"))
    as (A & _).
  - reflexivity.
  - reflexivity.
  - reflexivity.
  - apply lookup_singleton_eq.
  - right. left. reflexivity.
  - reflexivity.
  - exact A.
Defined.

Lemma pipeline_failure_sample :
  exists m status last,
    fst (processTranslation sample_host (js "Hello world") (js "Spanish")
           JUndefined false (world_with None dead_upstream))
    = inl (TranslationError m status (Some (error_message last)))
    /\ read_response sample_host (dead_upstream 4) = inl last
    /\ forall i, (i <= 4)%nat ->
                 attempt_fails sample_host (dead_upstream i) = true.
Proof.
  destruct (pipeline_failure sample_host (js "Hello world") (js "Spanish")
              JUndefined false (world_with None dead_upstream)
              (TranslationError (js "Groq API Error (504)") 504
                 (Some (js "HTTP error! status: 504"))))
    as (m & status & last & E & L & Hall & _).
  - reflexivity.
  - exists m, status, last. split; [|split; [exact L|exact Hall]].
    rewrite <- E. reflexivity.
Defined.

Lemma upstream_status_mirrored_sample :
  fst (processTranslation sample_host (js "Hello world") (js "Spanish")
         JUndefined true (world_with None dead_upstream))
  = inl (TranslationError (js "Groq API Error (504)") 504
           (Some (js "HTTP error! status: 504"))).
Proof.
  apply (upstream_status_mirrored sample_host (js "Hello world")
           (js "Spanish") JUndefined true (world_with None dead_upstream)
           504 (BodyRejects (js "body not read"))).
  - reflexivity.
  - intros i Hi. destruct i as [|[|[|[|i]]]]; [reflexivity ..|exfalso; lia].
  - reflexivity.
Defined.

Lemma failure_classes_sample :
  fst (processTranslation sample_host (js "Hello world") (js "Spanish")
         JUndefined false
         (world_with None (fun _ => completion [js "  "])))
  = inl (TranslationError
           (js "The model struggled to generate a translation. The input may be too short or ambiguous.")
           400 (Some (js "LLM returned empty translation text."))).
Proof.
  destruct (failure_classes sample_host (js "Hello world") (js "Spanish")
              JUndefined false
              (world_with None (fun _ => completion [js "  "]))
              (Error (js "LLM returned empty translation text.")))
    as (H & _).
  - reflexivity.
  - intros i Hi. reflexivity.
  - reflexivity.
  - apply H. reflexivity.
Defined.

Lemma upstream_request_content_sample :
  exists request n,
    upstream_calls
      (trace (snd (processTranslation sample_host (js "Hello world")
                     (js "Spanish") JUndefined false
                     (world_with None steady_upstream))))
    = repeat request n
    /\ req_user request = js "Hello world"
    /\ includes (js "Spanish") (req_system request) = true.
Proof.
  destruct (upstream_request_content sample_host (js "Hello world")
              (js "Spanish") JUndefined false
              (world_with None steady_upstream) eq_refl)
    as (request & n & _ & U & A & _ & _ & B & _).
  exists request, n. split; [exact U|split; [exact A|exact B]].
Defined.

Lemma invalid_body_short_circuits_sample :
  translate_handler sample_host (sample_request (JObj []))
                    (world_with (Some warm_redis) steady_upstream)
  = (Next EmptyText, world_with (Some warm_redis) steady_upstream).
Proof.
  destruct (invalid_body_short_circuits sample_host ltac:(discriminate)
              (sample_request (JObj []))
              (world_with (Some warm_redis) steady_upstream) EmptyText
              eq_refl) as (H & _).
  exact H.
Defined.

Lemma reply_status_by_route_sample :
  exists r,
    fst (retranslate_handler sample_host (sample_request hello_body)
           (world_with (Some warm_redis) steady_upstream))
    = ResJson 200 (result_json r)
    /\ status r = js "regenerated".
Proof.
  destruct (reply_status_by_route sample_host ltac:(discriminate)
              (sample_request hello_body)
              (world_with (Some warm_redis) steady_upstream) 200
              (result_json (fresh_result sample_host (js "Hello world")
                              (js "Spanish") true (js "Hola mundo"))))
    as (_ & H).
  destruct (H eq_refl) as (text & lang & r & _ & _ & E & _ & S).
  exists r. split; [|exact S]. rewrite <- E. reflexivity.
Defined.

Lemma same_pair_same_entry_sample :
  let padded :=
    sample_request (JObj [ (js "text", JStr (js "  Hello world  "));
                           (js "target_lang", JStr (js " Spanish")) ]) in
  let w := world_with (Some (healthy_redis ∅)) steady_upstream in
  let first := translate_handler sample_host padded w in
  let second :=
    translate_handler sample_host (sample_request hello_body) (snd first) in
  fst second
  = ResJson 200
      (result_json {| source_language := JStr (js "EN");
                      target_language := js "Spanish";
                      translated_text := JStr (js "Hola mundo");
                      status := js "cached" |})
  /\ fetches (snd second) = fetches (snd first).
Proof.
  intros padded w first second.
  destruct (same_pair_same_entry sample_host ltac:(discriminate)
              padded (sample_request hello_body) w (healthy_redis ∅)
              (js "Hello world") (js "Spanish") (js "Hola mundo"))
    as (_ & A & B); try reflexivity.
  split; [exact A|exact B].
Defined.

Lemma playground_requests_pass_text_checks_sample :
  validateInput (JObj [ (js "text", JStr (js "Hello world"));
                        (js "target_lang", JStr (js "Spanish")) ])
  = inr (js "Hello world", js "Spanish").
Proof.
  destruct (playground_requests_pass_text_checks (js "/api/translate")
              (js "  Hello world ") (js "Spanish ")
              (JObj [ (js "text", JStr (js "Hello world"));
                      (js "target_lang", JStr (js "Spanish")) ]) eq_refl)
    as (_ & _ & _ & H).
  exact H.
Defined.

Lemma playground_refusals_agree_sample :
  exists e,
    validateInput (JObj [ (js "text", JStr (js "   "));
                          (js "target_lang", JStr (js "Spanish")) ])
    = inl e.
Proof.
  destruct (playground_refusals_agree (js "/api/translate") (js "   ")
              (js "Spanish")
              (error_html (js "Please enter text to translate")) true
              eq_refl) as (_ & e & H & _).
  exists e. exact H.
Defined.
